(** * The texture-reconstruction driver (examples/task7/class7_texrecon.cpp)

    A shallow embedding of [main]: the driver that loads a mesh and a scene,
    selects one texture view per face (by MRF optimisation or from a labeling
    file), generates and levels texture patches, packs atlases and writes the
    model.

    [main] is straight-line code with early [std::exit]s, two loops and many
    calls into the texturing library.  It is embedded in a small monad that
    threads the process state (the graph, the texture patches and the
    chronological list of observable events) and stops at the first exit.
    What the outside world and the library answer in one run is collected in
    an [Env] record.  Progress text on [std::cout] and the wall-clock values
    are left out; [std::cerr] diagnostics, timer marks, library calls and file
    writes are events. *)

From Stdlib Require Import Ascii SpecFloat.
From stdpp Require Import base option strings numbers list.

Open Scope string_scope.
Open Scope nat_scope.

(** ** Colour channels

    [math::Vec3f] holds three [float]s.  The driver only ever builds the zero
    vector; the channel arithmetic is kept behind an interface, of which the
    program's instance is [float32] below. *)

Class Channel (F : Type) := {
  f0 : F;
  fadd : F → F → F;
  fmul : F → F → F
}.

(** The channels of the program: [float], that is IEEE binary32 (24 bits of
    precision, exponents below 128), with the addition and multiplication of
    the standard; [0.0f] is the positive zero. *)
Abbreviation float32 := spec_float.

#[export] Instance float32_channel : Channel float32 :=
  {| f0 := S754_zero false; fadd := SFadd 24 128; fmul := SFmul 24 128 |}.

(** Integer channels, for sample runs that do not look at colours. *)
#[export] Instance Z_channel : Channel Z :=
  {| f0 := 0%Z; fadd := Z.add; fmul := Z.mul |}.

Definition Vec3 (F : Type) : Type := F * F * F.

(** [math::Vec3f(v)]: all three components are [v]. *)
Definition Vec3_fill {F} (v : F) : Vec3 F := (v, v, v).

Definition Vec3_add {F} `{Channel F} (a b : Vec3 F) : Vec3 F :=
  let '(a0, a1, a2) := a in
  let '(b0, b1, b2) := b in
  (fadd a0 b0, fadd a1 b1, fadd a2 b2).

Definition Vec3_scale {F} `{Channel F} (w : F) (a : Vec3 F) : Vec3 F :=
  let '(a0, a1, a2) := a in (fmul w a0, fmul w a1, fmul w a2).

(** ** Configuration ([arguments.h]): the fields [main] reads *)

Record Settings := {
  global_seam_leveling : bool;
  local_seam_leveling : bool
}.

Record Arguments := {
  in_scene : string;
  in_mesh : string;
  out_prefix : string;
  data_cost_file : string;
  labeling_file : string;
  settings : Settings;
  write_timings : bool;
  write_intermediate_results : bool;
  write_view_selection_model : bool
}.

(** [std::string::empty]. *)
Definition empty (s : string) : bool :=
  match s with EmptyString => true | String _ _ => false end.

(** ** Mesh: the flat vector of vertex ids, three per face *)

Record TriangleMesh := { get_faces : list nat }.

(** ** Adjacency graph *)

(** Modelled from the spec: the class [tex::Graph] is not among the sources.
    One node per face, each with a mutable label and the list of the faces
    that share an edge with it.  The spec reserves a label value for
    unlabelled nodes without naming it; fresh nodes carry 0 here and no
    result below depends on that choice. *)
Record Graph := {
  labels : list N;
  adj_lists : list (list nat)
}.

Definition Graph_new (n : nat) : Graph :=
  {| labels := replicate n 0%N; adj_lists := replicate n [] |}.

Definition num_nodes (g : Graph) : nat := length (labels g).

Definition set_label (i : nat) (label : N) (g : Graph) : Graph :=
  {| labels := <[i := label]> (labels g); adj_lists := adj_lists g |}.

Definition get_label (g : Graph) (i : nat) : N := default 0%N (labels g !! i).

(** The three vertex ids of face [i] in the flat face vector. *)
Definition face_vertices (faces : list nat) (i : nat) : list nat :=
  take 3 (drop (3 * i) faces).

(** Two faces share a mesh edge when they have two vertices in common. *)
Definition share_edge (faces : list nat) (i j : nat) : bool :=
  bool_decide
    (2 ≤ length (filter (λ v, v ∈ face_vertices faces j) (face_vertices faces i))).

(** Modelled from the spec: [tex::build_adjacency_graph] is not among the
    sources.  It connects any two distinct faces that share a mesh edge and
    leaves nodes and labels as they are. *)
Definition build_adjacency_graph (mesh : TriangleMesh) (g : Graph) : Graph :=
  let n := num_nodes g in
  {| labels := labels g;
     adj_lists :=
       (λ i, filter (λ j, i ≠ j ∧ share_edge (get_faces mesh) i j = true) (seq 0 n))
         <$> seq 0 n |}.

(** ** Texture patches *)

(** Modelled from the spec: the class [TexturePatch] is not among the
    sources.  A patch has its faces, one colour per pixel of its image, for
    each pixel the face of the patch that covers it (if any) with the
    barycentric weights of the pixel in that face, and the validity mask. *)
Record TexturePatch (F : Type) := {
  tp_label : N;
  tp_faces : list nat;
  tp_image : list (Vec3 F);
  tp_cover : list (option (nat * Vec3 F));
  tp_validity_mask : list bool
}.
Arguments tp_label {F} _.
Arguments tp_faces {F} _.
Arguments tp_image {F} _.
Arguments tp_cover {F} _.
Arguments tp_validity_mask {F} _.

(** The face covering pixel [i] of a patch, with the pixel's weights. *)
Definition cover_at {F} (p : TexturePatch F) (i : nat) : option (nat * Vec3 F) :=
  default None (tp_cover p !! i).

(** The adjustment of a covered pixel: the three per-vertex values of its
    face, interpolated with the pixel's barycentric weights. *)
Definition interpolate {F} `{Channel F}
    (adjust_values : list (Vec3 F)) (k : nat) (w : Vec3 F) : Vec3 F :=
  let '(w0, w1, w2) := w in
  let v i := default (Vec3_fill f0) (adjust_values !! i) in
  Vec3_add (Vec3_add (Vec3_scale w0 (v (3 * k))) (Vec3_scale w1 (v (3 * k + 1))))
           (Vec3_scale w2 (v (3 * k + 2))).

Definition adjust_pixel {F} `{Channel F}
    (adjust_values : list (Vec3 F)) (cov : option (nat * Vec3 F)) (c : Vec3 F)
    : Vec3 F :=
  match cov with
  | Some (k, w) => Vec3_add c (interpolate adjust_values k w)
  | None => c
  end.

(** Modelled from the spec: [TexturePatch::adjust_colors] is not among the
    sources.  The adjustment values are applied additively, interpolated
    across each face, and the validity mask is computed: a pixel is valid
    when a face of the patch covers it. *)
Definition adjust_colors {F} `{Channel F}
    (adjust_values : list (Vec3 F)) (p : TexturePatch F) : TexturePatch F :=
  {| tp_label := tp_label p;
     tp_faces := tp_faces p;
     tp_image := imap (λ i c, adjust_pixel adjust_values (cover_at p i) c) (tp_image p);
     tp_cover := tp_cover p;
     tp_validity_mask :=
       imap (λ i _, bool_decide (is_Some (cover_at p i))) (tp_image p) |}.

(** ** Events, process state and the monad of [main] *)

(** A computation returns a value or has called [std::exit]. *)
Inductive Outcome (A : Type) :=
  | Ret (a : A)
  | Exited (code : Z).
Arguments Ret {A} a.
Arguments Exited {A} code.

Definition EXIT_FAILURE : Z := 1.

Section Driver.
Context {F : Type} `{Channel F}.

(** What a run does that can be observed from outside [main]: diagnostics,
    timer marks, calls into the texturing library and files written. *)
Inductive Event :=
  | Cerr (msg : string)
  | TimerMeasure (what : string)
  | PrepareMesh
  | GenerateTextureViews
  | WriteConf
  | BuildAdjacencyGraph
  | CalculateDataCosts
  | SaveDataCosts
  | LoadDataCosts
  | ViewSelection
  | SaveLabeling (labeling : list N)
  | LoadLabeling
  | GenerateTexturePatches (labeling : list N)
  | GlobalSeamLeveling
  | AdjustColors (i : nat) (adjust_values : list (Vec3 F))
  | LocalSeamLeveling
  | GenerateTextureAtlases
  | BuildModel
  | SaveModel (suffix : string)
  | WriteTimings
  | GenerateDebugEmbeddings.

(** The mutable objects of [main] and the events so far, oldest first.
    [graph] and [texture_patches] hold the empty graph and no patch until
    their declarations (lines 80 and 164) are reached. *)
Record Proc := {
  graph : Graph;
  texture_patches : list (TexturePatch F);
  trace : list Event
}.

Definition initial : Proc :=
  {| graph := Graph_new 0; texture_patches := []; trace := [] |}.

Definition M (A : Type) : Type := Proc → Outcome A * Proc.

#[export] Instance M_ret : MRet M := λ A a p, (Ret a, p).

#[export] Instance M_bind : MBind M := λ A B k m p,
  match m p with
  | (Ret a, p') => k a p'
  | (Exited code, p') => (Exited code, p')
  end.

Definition exit {A} (code : Z) : M A := λ p, (Exited code, p).

Definition emit (ev : Event) : M unit := λ p,
  (Ret tt, {| graph := graph p; texture_patches := texture_patches p;
              trace := trace p ++ [ev] |}).

Definition get_graph : M Graph := λ p, (Ret (graph p), p).

Definition modify_graph (f : Graph → Graph) : M unit := λ p,
  (Ret tt, {| graph := f (graph p); texture_patches := texture_patches p;
              trace := trace p |}).

Definition get_patches : M (list (TexturePatch F)) := λ p, (Ret (texture_patches p), p).

Definition modify_patches (f : list (TexturePatch F) → list (TexturePatch F)) : M unit := λ p,
  (Ret tt, {| graph := graph p; texture_patches := f (texture_patches p);
              trace := trace p |}).

Definition when (b : bool) (m : M unit) : M unit := if b then m else mret tt.

(** ** The environment of one run *)

(** What the collaborators of [main] answer: the argument parser, the file
    system, the loaders and the texturing library.  A loader that [main]
    wraps in [try]/[catch] answers with the caught exception's [what()] or
    with its result. *)
Record Env := {
  env_parse_args : string + Arguments;
  env_dir_exists : bool;
  env_load_ply_mesh : string + TriangleMesh;
  (* texture_views.size() once generate_texture_views has filled the vector *)
  env_num_views : nat;
  (* ST::load_from_file: Some what when it throws util::FileException *)
  env_load_data_costs : option string;
  (* vector_from_file<std::size_t>(conf.labeling_file), taken to return: line
     138 has no handler, and a run in which the call throws is not a run of
     this model *)
  env_labeling : list N;
  (* the label tex::view_selection writes into node i *)
  env_mrf_label : nat → N;
  env_generate_texture_patches : Graph → list (TexturePatch F);
  env_global_seam_leveling : Graph → list (TexturePatch F) → list (TexturePatch F);
  env_local_seam_leveling : Graph → list (TexturePatch F) → list (TexturePatch F)
}.

(** ** The stages of [main] *)

Definition tab : string := String "009"%char EmptyString.

Definition wrong_labeling : string :=
  "Wrong labeling file for this mesh/scene combination... aborting!".

(** Lines 40-45: [parse_args], an [std::invalid_argument] is reported. *)
Definition parse_arguments (e : Env) : M Arguments :=
  match env_parse_args e with
  | inr conf => mret conf
  | inl what => emit (Cerr what);; exit EXIT_FAILURE
  end.

(** Lines 47-50. *)
Definition check_destination (e : Env) : M unit :=
  if env_dir_exists e then mret tt
  else emit (Cerr "Destination directory does not exist!");; exit EXIT_FAILURE.

(** Lines 52-60: [load_ply_mesh], any [std::exception] is reported. *)
Definition load_mesh (e : Env) : M TriangleMesh :=
  match env_load_ply_mesh e with
  | inr mesh => mret mesh
  | inl what => emit (Cerr (tab ++ "Could not load mesh: " ++ what));; exit EXIT_FAILURE
  end.

(** Line 70 and line 93: [mesh->get_faces().size() / 3]. *)
Definition face_count (mesh : TriangleMesh) : nat := length (get_faces mesh) `div` 3.

(** Lines 78-81. *)
Definition build_graph (mesh : TriangleMesh) : M unit :=
  let num_faces := face_count mesh in
  modify_graph (λ _, Graph_new num_faces);;
  emit BuildAdjacencyGraph;;
  modify_graph (build_adjacency_graph mesh).

(** Modelled from the spec: [tex::view_selection] is not among the sources.
    It writes a label into every node of the graph in place; which label is
    the optimiser's choice, given by the environment. *)
Definition view_selection (e : Env) (g : Graph) : Graph :=
  foldl (λ g i, set_label i (env_mrf_label e i) g) g (seq 0 (num_nodes g)).

(** Lines 128-131: the labels of the nodes [0 .. num_nodes - 1]. *)
Definition graph_labeling (g : Graph) : list N :=
  get_label g <$> seq 0 (num_nodes g).

(** Lines 97-118: compute the data costs, or load them from the file. *)
Definition data_costs_stage (e : Env) (conf : Arguments) : M unit :=
  if empty (data_cost_file conf) then
    emit CalculateDataCosts;;
    when (write_intermediate_results conf) (emit SaveDataCosts)
  else
    emit LoadDataCosts;;
    match env_load_data_costs e with
    | None => mret tt
    | Some what => emit (Cerr what);; exit EXIT_FAILURE
    end.

(** Lines 92-133: the branch without a labeling file. *)
Definition compute_labeling (e : Env) (conf : Arguments) : M unit :=
  data_costs_stage e conf;;
  emit (TimerMeasure "Calculating data costs");;
  emit ViewSelection;;
  modify_graph (view_selection e);;
  emit (TimerMeasure "Running MRF optimization");;
  when (write_intermediate_results conf)
    (g ← get_graph; emit (SaveLabeling (graph_labeling g))).

(** Line 147: [label > texture_views.size()]. *)
Definition rejected (num_views : nat) (label : N) : bool :=
  (N.of_nat num_views <? label)%N.

(** Lines 145-152: the loop [for (i = 0; i < labeling.size(); ++i)].  The
    list is the part of the vector from index [i] on. *)
Fixpoint transfer_labeling (num_views : nat) (labeling : list N) (i : nat) : M unit :=
  match labeling with
  | [] => mret tt
  | label :: rest =>
      (if rejected num_views label
       then emit (Cerr wrong_labeling);; exit EXIT_FAILURE
       else mret tt);;
      modify_graph (set_label i label);;
      transfer_labeling num_views rest (S i)
  end.

(** The labels of a vector written into consecutive nodes from node [i] on:
    what the loop has stored once it has gone through the vector. *)
Fixpoint store_labels (labeling : list N) (i : nat) (g : Graph) : Graph :=
  match labeling with
  | [] => g
  | label :: rest => store_labels rest (S i) (set_label i label g)
  end.

(** The index of the first label of the vector that line 147 rejects. *)
Fixpoint first_rejected (num_views : nat) (labeling : list N) : option nat :=
  match labeling with
  | [] => None
  | label :: rest =>
      if rejected num_views label then Some 0
      else S <$> first_rejected num_views rest
  end.

(** Lines 135-154: the branch with a labeling file. *)
Definition load_labeling (e : Env) : M unit :=
  emit LoadLabeling;;
  let labeling := env_labeling e in
  g ← get_graph;
  (if bool_decide (length labeling ≠ num_nodes g)
   then emit (Cerr wrong_labeling);; exit EXIT_FAILURE
   else mret tt);;
  transfer_labeling (env_num_views e) labeling 0.

(** Lines 89-155. *)
Definition view_selection_stage (e : Env) (conf : Arguments) : M unit :=
  if empty (labeling_file conf) then compute_labeling e conf else load_labeling e.

(** Lines 166-172. *)
Definition generate_patches (e : Env) : M unit :=
  g ← get_graph;
  emit (GenerateTexturePatches (graph_labeling g));;
  modify_patches (λ _, env_generate_texture_patches e g).

(** Line 189: [texture_patch->get_faces().size() * 3] zero vectors. *)
Definition zero_adjust_values (p : TexturePatch F) : list (Vec3 F) :=
  replicate (length (tp_faces p) * 3) (Vec3_fill f0).

(** Lines 187-191: one iteration of the loop over the patches. *)
Definition adjust_patch (i : nat) : M unit :=
  ps ← get_patches;
  match ps !! i with
  | Some texture_patch =>
      let patch_adjust_values := zero_adjust_values texture_patch in
      emit (AdjustColors i patch_adjust_values);;
      modify_patches (<[i := adjust_colors patch_adjust_values texture_patch]>)
  | None => mret tt
  end.

Fixpoint for_each (indices : list nat) (body : nat → M unit) : M unit :=
  match indices with
  | [] => mret tt
  | i :: rest => body i;; for_each rest body
  end.

(** Lines 184-193.  The iterations of the parallel loop touch one patch
    each; they are run here in index order.  [validity_masks_in] below runs
    them in any other order. *)
Definition calculate_validity_masks : M unit :=
  ps ← get_patches;
  for_each (seq 0 (length ps)) adjust_patch;;
  emit (TimerMeasure "Calculating texture patch validity masks").

(** Lines 174-194. *)
Definition global_stage (e : Env) (conf : Arguments) : M unit :=
  if global_seam_leveling (settings conf) then
    emit GlobalSeamLeveling;;
    g ← get_graph;
    modify_patches (env_global_seam_leveling e g);;
    emit (TimerMeasure "Running global seam leveling")
  else calculate_validity_masks.

(** Lines 196-202. *)
Definition local_stage (e : Env) (conf : Arguments) : M unit :=
  when (local_seam_leveling (settings conf))
    (emit LocalSeamLeveling;;
     g ← get_graph;
     modify_patches (env_local_seam_leveling e g));;
  emit (TimerMeasure "Running local seam leveling").

(** Lines 160-210. *)
Definition texturing_stage (e : Env) (conf : Arguments) : M unit :=
  generate_patches e;;
  global_stage e conf;;
  local_stage e conf;;
  emit GenerateTextureAtlases.

(** Lines 213-225. *)
Definition write_model : M unit :=
  emit BuildModel;;
  emit (TimerMeasure "Building OBJ model");;
  emit (SaveModel EmptyString);;
  emit (TimerMeasure "Saving").

(** Lines 233-252: the view-selection model, from patches of its own. *)
Definition view_selection_model (conf : Arguments) : M unit :=
  when (write_view_selection_model conf)
    (emit GenerateDebugEmbeddings;;
     g ← get_graph;
     emit (GenerateTexturePatches (graph_labeling g));;
     emit GenerateTextureAtlases;;
     emit BuildModel;;
     emit (SaveModel "_view_selection")).

(** Lines 27-231: everything up to the optional view-selection model. *)
Definition main_pass (e : Env) : M Arguments :=
  emit (TimerMeasure "Start");;
  conf ← parse_arguments e;
  check_destination e;;
  mesh ← load_mesh e;
  emit PrepareMesh;;
  emit GenerateTextureViews;;
  emit WriteConf;;
  emit (TimerMeasure "Loading");;
  build_graph mesh;;
  view_selection_stage e conf;;
  texturing_stage e conf;;
  write_model;;
  emit (TimerMeasure "Total");;
  when (write_timings conf) (emit WriteTimings);;
  mret conf.

Definition main (e : Env) : M unit :=
  conf ← main_pass e;
  view_selection_model conf.

(** The outcome and the final process state of a run. *)
Definition run (e : Env) : Outcome unit * Proc := main e initial.

(** ** The stages in closed form

    What each stage adds to the trace and does to the patches, written as
    plain lists; the lemmas below show that [main] computes exactly these. *)

(** The process with more events at the end of its trace. *)
Definition log (p : Proc) (events : list Event) : Proc :=
  {| graph := graph p; texture_patches := texture_patches p;
     trace := trace p ++ events |}.

Definition with_graph (g : Graph) (p : Proc) : Proc :=
  {| graph := g; texture_patches := texture_patches p; trace := trace p |}.

(** The arguments parse, the destination directory exists and the mesh
    loads: the run gets to the construction of the graph. *)
Definition loads (e : Env) (conf : Arguments) (mesh : TriangleMesh) : Prop :=
  env_parse_args e = inr conf ∧ env_dir_exists e = true ∧
  env_load_ply_mesh e = inr mesh.

(** The graph and the process state after line 81, when the graph has been
    built. *)
Definition built_graph (mesh : TriangleMesh) : Graph :=
  build_adjacency_graph mesh (Graph_new (face_count mesh)).

Definition built (mesh : TriangleMesh) : Proc :=
  {| graph := built_graph mesh;
     texture_patches := [];
     trace := [TimerMeasure "Start"; PrepareMesh; GenerateTextureViews; WriteConf;
               TimerMeasure "Loading"; BuildAdjacencyGraph] |}.

Definition data_costs_events (conf : Arguments) : list Event :=
  CalculateDataCosts :: (if write_intermediate_results conf then [SaveDataCosts] else []).

Definition selection_events (conf : Arguments) (g : Graph) : list Event :=
  [TimerMeasure "Calculating data costs"; ViewSelection;
   TimerMeasure "Running MRF optimization"] ++
  (if write_intermediate_results conf then [SaveLabeling (graph_labeling g)] else []).

(** A patch after the adjustment by its own zero vector. *)
Definition zero_adjust (q : TexturePatch F) : TexturePatch F :=
  adjust_colors (zero_adjust_values q) q.

Definition adjust_events (ps : list (TexturePatch F)) : list Event :=
  imap (λ i q, AdjustColors i (zero_adjust_values q)) ps.

(** Lines 184-193 with the iterations of the loop run one after the other
    in the order [order], as a schedule of the parallel loop may run them. *)
Definition validity_masks_in (order : list nat) : M unit :=
  for_each order adjust_patch;;
  emit (TimerMeasure "Calculating texture patch validity masks").

(** The call that iteration [i] makes on the patches [ps]. *)
Definition adjustment_of (ps : list (TexturePatch F)) (i : nat) : option Event :=
  (λ q, AdjustColors i (zero_adjust_values q)) <$> ps !! i.

(** The patches once the iterations [done] have run. *)
Definition adjusted_at (done : list nat) (ps : list (TexturePatch F))
    : list (TexturePatch F) :=
  imap (λ i q, if bool_decide (i ∈ done) then zero_adjust q else q) ps.

Definition global_events (conf : Arguments) (ps : list (TexturePatch F)) : list Event :=
  if global_seam_leveling (settings conf)
  then [GlobalSeamLeveling; TimerMeasure "Running global seam leveling"]
  else adjust_events ps ++ [TimerMeasure "Calculating texture patch validity masks"].

Definition global_patches (e : Env) (conf : Arguments) (g : Graph)
    (ps : list (TexturePatch F)) : list (TexturePatch F) :=
  if global_seam_leveling (settings conf)
  then env_global_seam_leveling e g ps
  else zero_adjust <$> ps.

Definition local_events (conf : Arguments) : list Event :=
  (if local_seam_leveling (settings conf) then [LocalSeamLeveling] else []) ++
  [TimerMeasure "Running local seam leveling"].

Definition local_patches (e : Env) (conf : Arguments) (g : Graph)
    (ps : list (TexturePatch F)) : list (TexturePatch F) :=
  if local_seam_leveling (settings conf) then env_local_seam_leveling e g ps else ps.

Definition texturing_events (e : Env) (conf : Arguments) (g : Graph) : list Event :=
  [GenerateTexturePatches (graph_labeling g)] ++
  global_events conf (env_generate_texture_patches e g) ++
  local_events conf ++ [GenerateTextureAtlases].

Definition closing_events (conf : Arguments) : list Event :=
  [BuildModel; TimerMeasure "Building OBJ model"; SaveModel EmptyString;
   TimerMeasure "Saving"; TimerMeasure "Total"] ++
  (if write_timings conf then [WriteTimings] else []).

Definition view_selection_model_events (conf : Arguments) (g : Graph) : list Event :=
  if write_view_selection_model conf
  then [GenerateDebugEmbeddings; GenerateTexturePatches (graph_labeling g);
        GenerateTextureAtlases; BuildModel; SaveModel "_view_selection"]
  else [].

(** The state at the end of [main_pass] when the view selection ended in
    state [p], and the final state of the run. *)
Definition textured (e : Env) (conf : Arguments) (p : Proc) : Proc :=
  {| graph := graph p;
     texture_patches :=
       local_patches e conf (graph p)
         (global_patches e conf (graph p) (env_generate_texture_patches e (graph p)));
     trace := trace p ++ texturing_events e conf (graph p) ++ closing_events conf |}.

Definition finished (e : Env) (conf : Arguments) (p : Proc) : Proc :=
  log (textured e conf p) (view_selection_model_events conf (graph p)).

(** ** Vocabulary of the statements *)

(** The events of the view selection, with the timer marks and the
    diagnostics that go with them. *)
Definition selection_event (ev : Event) : bool :=
  match ev with
  | Cerr _ | TimerMeasure _ | CalculateDataCosts | SaveDataCosts | LoadDataCosts
  | ViewSelection | SaveLabeling _ | LoadLabeling => true
  | _ => false
  end.

Definition no_patch_generated (t : list Event) : Prop :=
  ∀ labeling, GenerateTexturePatches labeling ∉ t.

(** The run has ended in [std::exit(EXIT_FAILURE)] right after the
    diagnostic [msg], and no texture patch was generated. *)
Definition aborts_with (msg : string) (r : Outcome unit * Proc) : Prop :=
  r.1 = Exited EXIT_FAILURE ∧ last (trace r.2) = Some (Cerr msg) ∧
  no_patch_generated (trace r.2) ∧ texture_patches r.2 = [].

(** The stages of the pipeline, in the order of the data flow. *)
Inductive Stage :=
  | GraphConstruction
  | DataCosts
  | Labeling
  | PatchGeneration
  | SeamLeveling
  | AtlasPacking
  | ModelBuilding.

Definition rank (s : Stage) : nat :=
  match s with
  | GraphConstruction => 0
  | DataCosts => 1
  | Labeling => 2
  | PatchGeneration => 3
  | SeamLeveling => 4
  | AtlasPacking => 5
  | ModelBuilding => 6
  end.

(** The stage an event belongs to.  Diagnostics, timer marks, the
    preparation of the inputs and the files written by the collaborators
    belong to none. *)
Definition stage_of (ev : Event) : option Stage :=
  match ev with
  | BuildAdjacencyGraph => Some GraphConstruction
  | CalculateDataCosts | LoadDataCosts => Some DataCosts
  | ViewSelection | LoadLabeling => Some Labeling
  | GenerateTexturePatches _ => Some PatchGeneration
  | GlobalSeamLeveling | AdjustColors _ _ | LocalSeamLeveling => Some SeamLeveling
  | GenerateTextureAtlases => Some AtlasPacking
  | BuildModel => Some ModelBuilding
  | _ => None
  end.

Definition stages (t : list Event) : list Stage := omap stage_of t.

(** No stage of the list comes before [r] or before a stage listed
    earlier. *)
Fixpoint in_sequence_from (r : nat) (l : list Stage) : bool :=
  match l with
  | [] => true
  | s :: l' => (r <=? rank s) && in_sequence_from (rank s) l'
  end.

Definition stages_in_sequence (t : list Event) : Prop :=
  in_sequence_from 0 (stages t) = true.

(** The stages of a part of the trace are in sequence, none before rank
    [lo] and none after rank [hi]. *)
Definition between (lo hi : nat) (t : list Event) : Prop :=
  lo ≤ hi ∧ in_sequence_from lo (stages t) = true ∧
  Forall (λ s, rank s ≤ hi) (stages t).

(** The gating of the local leveling on the global one, as the
    specification words it: one runs exactly when the other does. *)
Definition local_gated_on_global (e : Env) : Prop :=
  LocalSeamLeveling ∈ trace (run e).2 ↔ GlobalSeamLeveling ∈ trace (run e).2.

(** The labels the specification admits in a labeling file: the marker of
    an unlabelled face, whatever value it has, and the indices of the views. *)
Definition admissible (invalid : N) (num_views : nat) (label : N) : Prop :=
  label = invalid ∨ (label < N.of_nat num_views)%N.

(** The range validation as the specification words it. *)
Definition rejects_inadmissible_labels (invalid : N) : Prop :=
  ∀ e conf mesh,
    loads e conf mesh → empty (labeling_file conf) = false →
    (∃ label, label ∈ env_labeling e ∧ ¬ admissible invalid (env_num_views e) label) →
    aborts_with wrong_labeling (run e).

End Driver.

(** ** What a run leaves behind

    The parts of a trace a user of the program sees: the diagnostics, the
    timer marks that go to the timings file, the models saved and the
    labelings from which patches were generated. *)

Section Observations.
Context {F : Type} `{Channel F}.

Definition diagnostic_of (ev : Event (F:=F)) : option string :=
  match ev with Cerr msg => Some msg | _ => None end.

Definition timer_mark_of (ev : Event (F:=F)) : option string :=
  match ev with TimerMeasure what => Some what | _ => None end.

Definition saved_model_of (ev : Event (F:=F)) : option string :=
  match ev with SaveModel suffix => Some suffix | _ => None end.

Definition patch_labeling_of (ev : Event (F:=F)) : option (list N) :=
  match ev with GenerateTexturePatches labeling => Some labeling | _ => None end.

Definition diagnostics (t : list (Event (F:=F))) : list string := omap diagnostic_of t.
Definition timer_marks (t : list (Event (F:=F))) : list string := omap timer_mark_of t.
Definition saved_models (t : list (Event (F:=F))) : list string := omap saved_model_of t.
Definition patch_labelings (t : list (Event (F:=F))) : list (list N) :=
  omap patch_labeling_of t.

(** The events of the texturing and of the output of the model. *)
Definition output_event (ev : Event (F:=F)) : bool :=
  match ev with
  | GenerateTexturePatches _ | GlobalSeamLeveling | AdjustColors _ _
  | LocalSeamLeveling | GenerateTextureAtlases | BuildModel | SaveModel _
  | WriteTimings | GenerateDebugEmbeddings => true
  | _ => false
  end.

(** The view selection of lines 89-155 goes through: without a labeling
    file the data costs are computed or their file loads, with one the file
    has one label per node and no label above the number of views. *)
Definition selection_succeeds (e : Env (F:=F)) (conf : Arguments) (mesh : TriangleMesh)
    : Prop :=
  if empty (labeling_file conf)
  then empty (data_cost_file conf) = true ∨ env_load_data_costs e = None
  else length (env_labeling e) = num_nodes (built_graph mesh) ∧
       Forall (λ label, (label ≤ N.of_nat (env_num_views e))%N) (env_labeling e).

End Observations.

(** ** Colours as floats *)

(** A zero or a finite number: not an infinity, not a NaN. *)
Definition finite32 (x : float32) : bool :=
  match x with
  | S754_zero _ | S754_finite _ _ _ => true
  | S754_infinity _ | S754_nan => false
  end.

(** The same float, or two zeros whatever their signs. *)
Definition same_value (x y : float32) : Prop :=
  x = y ∨ ∃ sx sy, x = S754_zero sx ∧ y = S754_zero sy.

Definition same_color (a b : Vec3 float32) : Prop :=
  let '(a0, a1, a2) := a in
  let '(b0, b1, b2) := b in
  same_value a0 b0 ∧ same_value a1 b1 ∧ same_value a2 b2.

(** The barycentric weights of all covered pixels of a patch are finite. *)
Definition finite_weights (q : TexturePatch float32) : bool :=
  forallb (λ cov : option (nat * Vec3 float32),
             match cov with
             | Some (_, (w0, w1, w2)) => finite32 w0 && finite32 w1 && finite32 w2
             | None => true
             end)
    (tp_cover q).

(** ** Sample runs

    A mesh of two triangles that share an edge, scenes of two or three
    views, one texture patch of one face and two pixels, and integers for
    the colour channels. *)

Definition sample_mesh : TriangleMesh := {| get_faces := [0; 1; 2; 1; 2; 3] |}.

Definition sample_patch : TexturePatch Z :=
  {| tp_label := 1;
     tp_faces := [0];
     tp_image := [(10, 20, 30); (40, 50, 60)]%Z;
     tp_cover := [Some (0, (1, 2, 3)%Z); None];
     tp_validity_mask := [] |}.

Definition sample_conf (data_costs labeling : string) (global local model : bool)
    : Arguments :=
  {| in_scene := "scene"; in_mesh := "mesh.ply"; out_prefix := "out/model";
     data_cost_file := data_costs; labeling_file := labeling;
     settings := {| global_seam_leveling := global; local_seam_leveling := local |};
     write_timings := false; write_intermediate_results := false;
     write_view_selection_model := model |}.

Definition sample_env (conf : Arguments) (num_views : nat) (labeling : list N)
    (load_data_costs : option string) : Env (F:=Z) :=
  {| env_parse_args := inr conf;
     env_dir_exists := true;
     env_load_ply_mesh := inr sample_mesh;
     env_num_views := num_views;
     env_load_data_costs := load_data_costs;
     env_labeling := labeling;
     env_mrf_label := λ _, 1%N;
     env_generate_texture_patches := λ _, [sample_patch];
     env_global_seam_leveling := λ _ ps, ps;
     env_local_seam_leveling := λ _ ps, ps |}.

(** A labeling file, global leveling off, local leveling on. *)
Definition labeling_conf : Arguments :=
  sample_conf EmptyString "labeling.vec" false true false.

(** A data-cost file and no labeling file. *)
Definition data_cost_conf : Arguments :=
  sample_conf "data_costs.spt" EmptyString true true false.

(** No file, both levelings on, the view-selection model asked for. *)
Definition model_conf : Arguments :=
  sample_conf EmptyString EmptyString true true true.

(** No file, intermediate results written. *)
Definition saving_conf : Arguments :=
  {| in_scene := "scene"; in_mesh := "mesh.ply"; out_prefix := "out/model";
     data_cost_file := EmptyString; labeling_file := EmptyString;
     settings := {| global_seam_leveling := true; local_seam_leveling := false |};
     write_timings := true; write_intermediate_results := true;
     write_view_selection_model := false |}.

(** A run on a mesh without a face, with an empty labeling file. *)
Definition faceless_env : Env (F:=Z) :=
  {| env_parse_args := inr labeling_conf;
     env_dir_exists := true;
     env_load_ply_mesh := inr {| get_faces := [0; 1] |};
     env_num_views := 2;
     env_load_data_costs := None;
     env_labeling := [];
     env_mrf_label := λ _, 1%N;
     env_generate_texture_patches := λ _, [];
     env_global_seam_leveling := λ _ ps, ps;
     env_local_seam_leveling := λ _ ps, ps |}.

(** A run whose mesh does not load. *)
Definition meshless_env : Env (F:=Z) :=
  {| env_parse_args := inr labeling_conf;
     env_dir_exists := true;
     env_load_ply_mesh := inl "not a PLY file";
     env_num_views := 2;
     env_load_data_costs := None;
     env_labeling := [];
     env_mrf_label := λ _, 1%N;
     env_generate_texture_patches := λ _, [];
     env_global_seam_leveling := λ _ ps, ps;
     env_local_seam_leveling := λ _ ps, ps |}.

(** Two patches with float colours: 1, 0.5 and 0.25, a negative zero and
    an infinity among them; one face each, weights 0.5, 0.25 and 0.25. *)
Definition float_patch : TexturePatch float32 :=
  {| tp_label := 1;
     tp_faces := [0];
     tp_image := [(S754_finite false 8388608 (-23), S754_finite false 8388608 (-24),
                   S754_zero true);
                  (S754_infinity false, S754_zero false, S754_finite true 8388608 (-25))];
     tp_cover := [Some (0, (S754_finite false 8388608 (-24),
                            S754_finite false 8388608 (-25),
                            S754_finite false 8388608 (-25))); None];
     tp_validity_mask := [] |}.

Definition float_patch' : TexturePatch float32 :=
  {| tp_label := 2;
     tp_faces := [1; 0];
     tp_image := [(S754_finite false 8388608 (-25), S754_nan, S754_zero false)];
     tp_cover := [Some (1, (S754_zero false, S754_finite false 8388608 (-23),
                            S754_zero true))];
     tp_validity_mask := [true] |}.

Definition float_env : Env (F:=float32) :=
  {| env_parse_args := inr labeling_conf;
     env_dir_exists := true;
     env_load_ply_mesh := inr sample_mesh;
     env_num_views := 2;
     env_load_data_costs := None;
     env_labeling := [2; 1]%N;
     env_mrf_label := λ _, 1%N;
     env_generate_texture_patches := λ _, [float_patch; float_patch'];
     env_global_seam_leveling := λ _ ps, ps;
     env_local_seam_leveling := λ _ ps, ps |}.

(** * Properties *)

Close Scope string_scope.

Section Properties.
Context {F : Type} `{Channel F}.
Implicit Types (e : Env (F:=F)) (p : Proc (F:=F)) (g : Graph) (ev : Event (F:=F)).
Implicit Types (labeling : list N) (ps : list (TexturePatch F)).
Implicit Types (t : list (Event (F:=F))).

Ltac munfold :=
  unfold run, main, main_pass, parse_arguments, check_destination, load_mesh, build_graph,
       view_selection_stage, compute_labeling, data_costs_stage, load_labeling,
       texturing_stage, generate_patches, global_stage, local_stage,
       calculate_validity_masks, write_model, view_selection_model, when.
Ltac mred :=
  cbv [mbind M_bind mret M_ret emit exit modify_graph get_graph get_patches
       modify_patches initial];
  cbn [app fst snd graph texture_patches trace].

(** Case analysis on a membership [H : ev ∈ l] in a list built from
    [::], [++] and []; cases that equate distinct events are closed. *)
Ltac in_cases H :=
  repeat match type of H with
    | _ ∈ [] => by apply elem_of_nil in H
    | _ ∈ _ :: _ => apply elem_of_cons in H as [H|H]; [try discriminate H|]
    | _ ∈ _ ++ _ => apply elem_of_app in H as [H|H]
    | _ ∈ (if ?b then _ else _) => destruct b
    | _ ∈ imap _ _ =>
        apply elem_of_lookup_imap_1 in H as (? & ? & H & ?); try discriminate H
    end.

(** Search for an event in such a list; [tac] closes the symbolic parts. *)
Ltac in_search tac :=
  solve [ tac
        | apply list_elem_of_here
        | apply list_elem_of_further; in_search tac
        | apply elem_of_app; left; in_search tac
        | apply elem_of_app; right; in_search tac ].

(** The same once the closed forms of the stages are unfolded. *)
Ltac trace_cases H :=
  unfold finished, textured, log, with_graph, texturing_events, global_events,
    adjust_events, local_events, closing_events, view_selection_model_events,
    data_costs_events, selection_events, built in H;
  cbn [fst snd app trace graph texture_patches] in H;
  in_cases H.

(** ** The label transfer loop *)

Lemma num_nodes_set_label i label g : num_nodes (set_label i label g) = num_nodes g.
Proof. unfold num_nodes, set_label; simpl. apply length_insert. Qed.

Lemma num_nodes_store_labels labeling i g :
  num_nodes (store_labels labeling i g) = num_nodes g.
Proof.
  revert i g; induction labeling as [|l ls IH]; intros i g; simpl; [done|].
  by rewrite IH, num_nodes_set_label.
Qed.

Lemma adj_lists_store_labels labeling i g :
  adj_lists (store_labels labeling i g) = adj_lists g.
Proof.
  revert i g; induction labeling as [|l ls IH]; intros i g; simpl; [done|].
  by rewrite IH.
Qed.

(** Nodes outside [i, i + length labeling) keep their label. *)
Lemma store_labels_lookup_outside labeling i g j :
  j < i ∨ i + length labeling ≤ j →
  labels (store_labels labeling i g) !! j = labels g !! j.
Proof.
  revert i g; induction labeling as [|l ls IH]; intros i g Hj; simpl in *; [done|].
  rewrite IH by lia. simpl. apply list_lookup_insert_ne. lia.
Qed.

(** Node [i + j] receives the [j]-th label, when the node exists. *)
Lemma store_labels_lookup_inside labeling i g j label :
  labeling !! j = Some label → i + j < num_nodes g →
  labels (store_labels labeling i g) !! (i + j) = Some label.
Proof.
  revert i g j; induction labeling as [|l ls IH]; intros i g j Hj Hlt; [done|].
  destruct j as [|j]; simpl in *.
  - injection Hj as ->. rewrite Nat.add_0_r in *.
    rewrite store_labels_lookup_outside by (left; lia). simpl.
    by apply list_lookup_insert_eq.
  - replace (i + S j) with (S i + j) by lia.
    apply IH; [done|]. rewrite num_nodes_set_label. lia.
Qed.

(** A vector as long as the graph replaces all labels. *)
Lemma store_labels_all labeling g :
  length labeling = num_nodes g → labels (store_labels labeling 0 g) = labeling.
Proof.
  intros Hlen. apply list_eq. intros j.
  destruct (labeling !! j) as [label|] eqn:Hj.
  - apply (store_labels_lookup_inside labeling 0 g j label Hj).
    apply lookup_lt_Some in Hj. lia.
  - apply lookup_ge_None in Hj. apply lookup_ge_None.
    fold (num_nodes (store_labels labeling 0 g)). rewrite num_nodes_store_labels. lia.
Qed.

Lemma first_rejected_None num_views labeling :
  first_rejected num_views labeling = None ↔
  Forall (λ label, rejected num_views label = false) labeling.
Proof.
  induction labeling as [|l ls IH]; simpl; [by split|].
  destruct (rejected num_views l) eqn:Hr.
  - split; [done|]. intros Hall. inversion Hall; congruence.
  - rewrite fmap_None, IH. split; [by constructor|]. by inversion 1.
Qed.

Lemma first_rejected_Some num_views labeling k :
  first_rejected num_views labeling = Some k ↔
  (∃ label, labeling !! k = Some label ∧ rejected num_views label = true) ∧
  Forall (λ label, rejected num_views label = false) (take k labeling).
Proof.
  revert k; induction labeling as [|l ls IH]; intros k; simpl.
  - split; [done|]. intros [(label & Hl & _) _]. done.
  - destruct (rejected num_views l) eqn:Hr.
    + split.
      * intros [= <-]. split; [by exists l|]. constructor.
      * intros [_ Hall]. destruct k; [done|]. simpl in Hall. inversion Hall; congruence.
    + rewrite fmap_Some. split.
      * intros (k' & Hk' & ->). apply IH in Hk' as [Hbad Hall].
        split; [done|]. simpl. by constructor.
      * intros [(label & Hl & Hbad) Hall]. destruct k as [|k]; simpl in *.
        { injection Hl as ->. congruence. }
        exists k. split; [|done]. apply IH. split; [by exists label|]. by inversion Hall.
Qed.

(** The loop in closed form: it stores every label, or stops at the first
    rejected one with the labels before it stored. *)
Lemma transfer_labeling_run num_views labeling i p :
  transfer_labeling num_views labeling i p =
  match first_rejected num_views labeling with
  | None =>
      (Ret (), {| graph := store_labels labeling i (graph p);
                  texture_patches := texture_patches p;
                  trace := trace p |})
  | Some k =>
      (Exited EXIT_FAILURE,
       {| graph := store_labels (take k labeling) i (graph p);
          texture_patches := texture_patches p;
          trace := trace p ++ [Cerr wrong_labeling] |})
  end.
Proof.
  revert i p; induction labeling as [|l ls IH]; intros i p; simpl.
  - by destruct p.
  - destruct (rejected num_views l) eqn:Hr; mred; [done|].
    rewrite IH. simpl. by destruct (first_rejected num_views ls).
Qed.

(** ** The validity-mask loop *)

Lemma adjust_patch_run i p q :
  texture_patches p !! i = Some q →
  adjust_patch i p =
  (Ret (),
   {| graph := graph p;
      texture_patches := <[i := zero_adjust q]> (texture_patches p);
      trace := trace p ++ [AdjustColors i (zero_adjust_values q)] |}).
Proof. intros Hq. unfold adjust_patch. mred. rewrite Hq. by mred. Qed.

Lemma for_each_adjust_run done todo p :
  texture_patches p = done ++ todo →
  for_each (seq (length done) (length todo)) adjust_patch p =
  (Ret (),
   {| graph := graph p;
      texture_patches := done ++ (zero_adjust <$> todo);
      trace := trace p ++
               imap (λ j q, AdjustColors (length done + j) (zero_adjust_values q)) todo |}).
Proof.
  revert done p; induction todo as [|q todo IH]; intros done p Hps;
    cbn [length seq for_each].
  - rewrite app_nil_r in Hps. simpl. rewrite !app_nil_r, <- Hps. by destruct p.
  - mred. rewrite (adjust_patch_run (length done) p q)
      by (rewrite Hps; by apply list_lookup_middle).
    replace (S (length done)) with (length (done ++ [zero_adjust q]))
      by (rewrite length_app; simpl; lia).
    rewrite (IH (done ++ [zero_adjust q])); cbn [graph texture_patches trace]; rewrite ?Hps.
    + rewrite length_app, imap_cons, fmap_cons, <- !app_assoc; simpl.
      rewrite Nat.add_0_r. do 4 f_equal.
      apply imap_ext. intros j x _; simpl. f_equal. lia.
    + rewrite <- app_assoc; simpl.
      replace (length done) with (length done + 0) at 1 by lia.
      by rewrite insert_app_r.
Qed.

Lemma calculate_validity_masks_run p :
  calculate_validity_masks p =
  (Ret (),
   {| graph := graph p;
      texture_patches := zero_adjust <$> texture_patches p;
      trace := trace p ++ adjust_events (texture_patches p) ++
               [TimerMeasure "Calculating texture patch validity masks"%string] |}).
Proof.
  pose proof (for_each_adjust_run [] (texture_patches p) p eq_refl) as Hloop.
  cbn [length app Nat.add] in Hloop.
  unfold calculate_validity_masks. mred. rewrite Hloop. mred.
  by rewrite <- app_assoc.
Qed.

(** ** The stages in closed form *)

Lemma texturing_stage_run e conf p :
  texturing_stage e conf p =
  (Ret (),
   {| graph := graph p;
      texture_patches :=
        local_patches e conf (graph p)
          (global_patches e conf (graph p) (env_generate_texture_patches e (graph p)));
      trace := trace p ++ texturing_events e conf (graph p) |}).
Proof.
  unfold texturing_stage, generate_patches, global_stage, local_stage, when,
    texturing_events, global_events, global_patches, local_events, local_patches.
  destruct (global_seam_leveling (settings conf)), (local_seam_leveling (settings conf));
    mred; rewrite ?calculate_validity_masks_run; mred;
    by rewrite <- ?app_assoc.
Qed.

Lemma load_labeling_run e p :
  load_labeling e p =
  if bool_decide (length (env_labeling e) ≠ num_nodes (graph p))
  then (Exited EXIT_FAILURE, log p [LoadLabeling; Cerr wrong_labeling])
  else match first_rejected (env_num_views e) (env_labeling e) with
       | None =>
           (Ret (), with_graph (store_labels (env_labeling e) 0 (graph p))
                      (log p [LoadLabeling]))
       | Some k =>
           (Exited EXIT_FAILURE,
            with_graph (store_labels (take k (env_labeling e)) 0 (graph p))
              (log p [LoadLabeling; Cerr wrong_labeling]))
       end.
Proof.
  unfold load_labeling, log, with_graph. mred.
  case_bool_decide; mred; [by rewrite <- app_assoc|].
  rewrite transfer_labeling_run; cbn [graph texture_patches trace].
  destruct (first_rejected _ _); [by rewrite <- app_assoc|done].
Qed.

Lemma compute_labeling_run e conf p :
  compute_labeling e conf p =
  let g := view_selection e (graph p) in
  if empty (data_cost_file conf)
  then (Ret (), with_graph g (log p (data_costs_events conf ++ selection_events conf g)))
  else match env_load_data_costs e with
       | None => (Ret (), with_graph g (log p (LoadDataCosts :: selection_events conf g)))
       | Some what => (Exited EXIT_FAILURE, log p [LoadDataCosts; Cerr what])
       end.
Proof.
  unfold compute_labeling, data_costs_stage, data_costs_events, selection_events,
    when, log, with_graph.
  destruct (empty (data_cost_file conf)), (write_intermediate_results conf),
    (env_load_data_costs e); mred; by rewrite <- ?app_assoc.
Qed.

(** ** The run in closed form *)

Lemma run_main_pass e :
  run e = match main_pass e initial with
          | (Ret conf, p) => (Ret (), log p (view_selection_model_events conf (graph p)))
          | (Exited code, p) => (Exited code, p)
          end.
Proof.
  unfold run, main. mred. destruct (main_pass e _) as [[conf|code] p]; [|done].
  unfold view_selection_model, when, view_selection_model_events, log.
  destruct (write_view_selection_model conf); mred; rewrite <- ?app_assoc; [done|].
  rewrite app_nil_r. by destruct p.
Qed.

(** A run that does not get to the graph stops after one diagnostic. *)
Lemma main_pass_cases e :
  (∃ conf mesh, loads e conf mesh) ∨
  (∃ msg, main_pass e initial =
          (Exited EXIT_FAILURE, log initial [TimerMeasure "Start"%string; Cerr msg])).
Proof.
  unfold loads, main_pass, parse_arguments, check_destination, load_mesh.
  destruct (env_parse_args e) as [what|conf]; [right; by eexists|].
  destruct (env_dir_exists e); [|right; by eexists].
  destruct (env_load_ply_mesh e) as [what|mesh]; [right; by eexists|].
  left. by exists conf, mesh.
Qed.

(** A run that gets to the graph continues with the view selection; when
    that returns, nothing stops the run any more. *)
Lemma main_pass_loads e conf mesh :
  loads e conf mesh →
  main_pass e initial =
  match view_selection_stage e conf (built mesh) with
  | (Ret _, p) => (Ret conf, textured e conf p)
  | (Exited code, p) => (Exited code, p)
  end.
Proof.
  intros (Hp & Hd & Hm).
  unfold main_pass, parse_arguments, check_destination, load_mesh, build_graph.
  rewrite Hp, Hd, Hm. mred. unfold built, built_graph.
  destruct (view_selection_stage e conf _) as [[[]|code] p]; [|done].
  rewrite texturing_stage_run.
  unfold write_model, when, textured, closing_events.
  mred. destruct (write_timings conf); mred; by rewrite <- ?app_assoc.
Qed.

Lemma run_loads e conf mesh :
  loads e conf mesh →
  run e = match view_selection_stage e conf (built mesh) with
          | (Ret _, p) => (Ret (), finished e conf p)
          | (Exited code, p) => (Exited code, p)
          end.
Proof.
  intros Hloads. rewrite run_main_pass, (main_pass_loads e conf mesh Hloads).
  by destruct (view_selection_stage e conf _) as [[[]|code] p].
Qed.

(** With a labeling file there are three ways on: the count is wrong, a
    label is rejected, or all labels are stored and the run completes. *)
Lemma run_labeling_file e conf mesh :
  loads e conf mesh → empty (labeling_file conf) = false →
  run e =
  if bool_decide (length (env_labeling e) ≠ num_nodes (built_graph mesh))
  then (Exited EXIT_FAILURE, log (built mesh) [LoadLabeling; Cerr wrong_labeling])
  else match first_rejected (env_num_views e) (env_labeling e) with
       | None =>
           (Ret (), finished e conf
                      (with_graph (store_labels (env_labeling e) 0 (built_graph mesh))
                         (log (built mesh) [LoadLabeling])))
       | Some k =>
           (Exited EXIT_FAILURE,
            with_graph (store_labels (take k (env_labeling e)) 0 (built_graph mesh))
              (log (built mesh) [LoadLabeling; Cerr wrong_labeling]))
       end.
Proof.
  intros Hloads Hfile. rewrite (run_loads e conf mesh Hloads).
  unfold view_selection_stage. rewrite Hfile, load_labeling_run.
  change (graph (built mesh)) with (built_graph mesh).
  case_bool_decide; [done|]. by destruct (first_rejected _ _).
Qed.

(** ** Rejected labeling files *)

Lemma rejected_spec num_views label :
  rejected num_views label = true ↔ (N.of_nat num_views < label)%N.
Proof. unfold rejected. apply N.ltb_lt. Qed.

Lemma rejected_false num_views label :
  rejected num_views label = false ↔ (label ≤ N.of_nat num_views)%N.
Proof. unfold rejected. rewrite N.ltb_ge. done. Qed.

Lemma first_rejected_elem num_views labeling label :
  label ∈ labeling → rejected num_views label = true →
  is_Some (first_rejected num_views labeling).
Proof.
  intros Hin Hrej. destruct (first_rejected num_views labeling) eqn:Hfirst; [done|].
  apply first_rejected_None in Hfirst. rewrite Forall_forall in Hfirst.
  specialize (Hfirst label Hin). congruence.
Qed.

Lemma aborts_at_count mesh :
  aborts_with wrong_labeling
    (Exited EXIT_FAILURE, log (built (F:=F) mesh) [LoadLabeling; Cerr wrong_labeling]).
Proof.
  unfold aborts_with, no_patch_generated; simpl. split_and!; try done.
  intros labeling Hin. in_cases Hin.
Qed.

Lemma aborts_at_label mesh g :
  aborts_with wrong_labeling
    (Exited EXIT_FAILURE,
     with_graph g (log (built (F:=F) mesh) [LoadLabeling; Cerr wrong_labeling])).
Proof.
  unfold aborts_with, no_patch_generated; simpl. split_and!; try done.
  intros labeling Hin. in_cases Hin.
Qed.

(** C2.  A labeling file is supplied and the run gets to it.  If the number
    of labels in the file differs from the number of nodes of the graph,
    the run exits with [EXIT_FAILURE] right after the diagnostic, and no
    texture patch has been generated. *)
Theorem labeling_count_mismatch_aborts e conf mesh :
  loads e conf mesh → empty (labeling_file conf) = false →
  length (env_labeling e) ≠ num_nodes (built_graph mesh) →
  aborts_with wrong_labeling (run e).
Proof.
  intros Hloads Hfile Hcount. rewrite (run_labeling_file e conf mesh Hloads Hfile).
  rewrite bool_decide_eq_true_2 by done. apply aborts_at_count.
Qed.

(** C3.  A labeling file is supplied and the run gets to it.  If the file
    contains a label strictly greater than the number of texture views, the
    run exits with [EXIT_FAILURE] right after the diagnostic, and no texture
    patch has been generated. *)
Theorem label_above_num_views_aborts e conf mesh label :
  loads e conf mesh → empty (labeling_file conf) = false →
  label ∈ env_labeling e → (N.of_nat (env_num_views e) < label)%N →
  aborts_with wrong_labeling (run e).
Proof.
  intros Hloads Hfile Hin Habove. rewrite (run_labeling_file e conf mesh Hloads Hfile).
  case_bool_decide; [apply aborts_at_count|].
  destruct (first_rejected_elem (env_num_views e) (env_labeling e) label Hin) as [k ->];
    [by apply rejected_spec|].
  apply aborts_at_label.
Qed.

(** The view selection only adds events of its own. *)
Lemma view_selection_stage_events e conf p o p' :
  view_selection_stage e conf p = (o, p') →
  ∃ t, trace p' = trace p ++ t ∧ Forall (λ ev, selection_event ev = true) t.
Proof.
  unfold view_selection_stage. destruct (empty (labeling_file conf)).
  - rewrite compute_labeling_run; cbv zeta.
    unfold data_costs_events, selection_events, log, with_graph.
    destruct (empty (data_cost_file conf)), (write_intermediate_results conf),
      (env_load_data_costs e); intros [= <- <-]; eexists; (split; [done|]);
      by repeat constructor.
  - rewrite load_labeling_run. unfold log, with_graph.
    case_bool_decide; [|destruct (first_rejected _ _)]; intros [= <- <-];
      eexists; (split; [done|]); by repeat constructor.
Qed.

(** ** Graphs *)

Lemma graph_labeling_labels g : graph_labeling g = labels g.
Proof.
  unfold graph_labeling, num_nodes. apply list_eq; intros j.
  rewrite list_lookup_fmap. destruct (decide (j < length (labels g))) as [Hlt|Hge].
  - rewrite lookup_seq_lt by done; simpl. unfold get_label.
    destruct (lookup_lt_is_Some_2 (labels g) j Hlt) as [label ->]. done.
  - rewrite lookup_seq_ge by lia. symmetry. apply lookup_ge_None. lia.
Qed.

Lemma num_nodes_built_graph mesh : num_nodes (built_graph mesh) = face_count mesh.
Proof. unfold built_graph, build_adjacency_graph, num_nodes; simpl. apply length_replicate. Qed.

Lemma num_nodes_view_selection e g : num_nodes (view_selection e g) = num_nodes g.
Proof.
  unfold view_selection. generalize (seq 0 (num_nodes g)) as nodes.
  intros nodes; revert g; induction nodes as [|i nodes IH]; intros g; simpl; [done|].
  by rewrite IH, num_nodes_set_label.
Qed.

(** C1 (as amended).  A labeling file is supplied and the run gets to it.
    The file is refused, with the diagnostic, [EXIT_FAILURE] and no texture
    patch, when its number of labels differs from the number of nodes or
    when one of its labels is greater than the number of views; it is
    accepted, and patches are generated from exactly its labels, when the
    numbers agree and every label is at most the number of views.  The
    number of views itself is an accepted label. *)
Theorem labeling_file_validation e conf mesh :
  loads e conf mesh → empty (labeling_file conf) = false →
  ((length (env_labeling e) ≠ num_nodes (built_graph mesh) ∨
    ∃ label, label ∈ env_labeling e ∧ (N.of_nat (env_num_views e) < label)%N) →
   aborts_with wrong_labeling (run e)) ∧
  (length (env_labeling e) = num_nodes (built_graph mesh) →
   Forall (λ label, (label ≤ N.of_nat (env_num_views e))%N) (env_labeling e) →
   (run e).1 = Ret () ∧ GenerateTexturePatches (env_labeling e) ∈ trace (run e).2).
Proof.
  intros Hloads Hfile. rewrite (run_labeling_file e conf mesh Hloads Hfile). split.
  - intros [Hcount|(label & Hin & Habove)].
    + rewrite bool_decide_eq_true_2 by done. apply aborts_at_count.
    + case_bool_decide; [apply aborts_at_count|].
      destruct (first_rejected_elem (env_num_views e) (env_labeling e) label Hin) as [k ->];
        [by apply rejected_spec|].
      apply aborts_at_label.
  - intros Hcount Hall. rewrite bool_decide_eq_false_2 by (by intros ?).
    assert (first_rejected (env_num_views e) (env_labeling e) = None) as ->.
    { apply first_rejected_None. eapply Forall_impl; [exact Hall|].
      intros label. by rewrite rejected_false. }
    split; [done|]. unfold finished, textured, log, with_graph, texturing_events; simpl.
    rewrite graph_labeling_labels, store_labels_all by done.
    in_search fail.
Qed.

(** C4.  With a labeling file, no run computes or loads data costs or runs
    the optimiser; whenever patches are generated the graph carries exactly
    the labels of the file; a run that returns ends with those labels in the
    graph; and in every run each node holds the file's label for it or the
    label it had when the graph was built. *)
Theorem labeling_file_replaces_view_selection e conf mesh :
  loads e conf mesh → empty (labeling_file conf) = false →
  (CalculateDataCosts ∉ trace (run e).2) ∧
  (LoadDataCosts ∉ trace (run e).2) ∧
  (ViewSelection ∉ trace (run e).2) ∧
  (∀ labeling, GenerateTexturePatches labeling ∈ trace (run e).2 →
               labeling = env_labeling e) ∧
  ((run e).1 = Ret () → labels (graph (run e).2) = env_labeling e) ∧
  (∀ j, labels (graph (run e).2) !! j = env_labeling e !! j ∨
        labels (graph (run e).2) !! j = labels (built_graph mesh) !! j).
Proof.
  intros Hloads Hfile. rewrite (run_labeling_file e conf mesh Hloads Hfile).
  case_bool_decide as Hcount.
  { split_and!.
    - intros Hin. by trace_cases Hin.
    - intros Hin. by trace_cases Hin.
    - intros Hin. by trace_cases Hin.
    - intros labeling Hin. by trace_cases Hin.
    - done.
    - intros j. by right. }
  destruct (first_rejected _ _) as [k|] eqn:Hfirst.
  { split_and!.
    - intros Hin. by trace_cases Hin.
    - intros Hin. by trace_cases Hin.
    - intros Hin. by trace_cases Hin.
    - intros labeling Hin. by trace_cases Hin.
    - done.
    - intros j. simpl. apply first_rejected_Some in Hfirst as [(bad & Hbad & _) _].
      apply lookup_lt_Some in Hbad.
      destruct (decide (j < k)) as [Hlt|Hge]; [left|right].
      + destruct (lookup_lt_is_Some_2 (env_labeling e) j) as [label Hj]; [lia|].
        rewrite Hj. apply (store_labels_lookup_inside _ 0 _ j).
        * by rewrite lookup_take_lt.
        * simpl. lia.
      + apply store_labels_lookup_outside. rewrite length_take_le by lia. lia. }
  assert (labels (store_labels (env_labeling e) 0 (built_graph mesh)) = env_labeling e)
    as Hlabels by (by apply store_labels_all).
  split_and!.
  - intros Hin. by trace_cases Hin.
  - intros Hin. by trace_cases Hin.
  - intros Hin. by trace_cases Hin.
  - intros labeling Hin. trace_cases Hin; injection Hin as ->;
      by rewrite graph_labeling_labels.
  - done.
  - intros j. left. simpl. by rewrite Hlabels.
Qed.

(** C10.  The transfer of a labeling file into the graph is not atomic.
    The count is checked before any label is written: on a wrong count the
    run exits with the graph as it was built.  The range is checked label by
    label between the writes: when the count is right and the first label
    greater than the number of views is at index [k], the run exits with
    the labels of the file stored in the nodes before [k] and with the
    nodes from [k] on untouched. *)
Theorem label_transfer_not_atomic e conf mesh :
  loads e conf mesh → empty (labeling_file conf) = false →
  (length (env_labeling e) ≠ num_nodes (built_graph mesh) →
   (run e).1 = Exited EXIT_FAILURE ∧ graph (run e).2 = built_graph mesh) ∧
  (∀ k bad,
     length (env_labeling e) = num_nodes (built_graph mesh) →
     env_labeling e !! k = Some bad → (N.of_nat (env_num_views e) < bad)%N →
     Forall (λ label, (label ≤ N.of_nat (env_num_views e))%N) (take k (env_labeling e)) →
     (run e).1 = Exited EXIT_FAILURE ∧
     (∀ j, j < k → labels (graph (run e).2) !! j = env_labeling e !! j) ∧
     (∀ j, k ≤ j → labels (graph (run e).2) !! j = labels (built_graph mesh) !! j)).
Proof.
  intros Hloads Hfile. rewrite (run_labeling_file e conf mesh Hloads Hfile). split.
  - intros Hcount. by rewrite bool_decide_eq_true_2.
  - intros k bad Hcount Hbad Habove Hbefore.
    rewrite bool_decide_eq_false_2 by (by intros ?).
    assert (first_rejected (env_num_views e) (env_labeling e) = Some k) as ->.
    { apply first_rejected_Some. split.
      - exists bad. split; [done|]. by apply rejected_spec.
      - eapply Forall_impl; [exact Hbefore|]. intros label. by rewrite rejected_false. }
    apply lookup_lt_Some in Hbad. simpl. split_and!; [done|..].
    + intros j Hlt.
      destruct (lookup_lt_is_Some_2 (env_labeling e) j) as [label Hj]; [lia|].
      rewrite Hj. apply (store_labels_lookup_inside _ 0 _ j).
      * by rewrite lookup_take_lt.
      * simpl. lia.
    + intros j Hge. apply store_labels_lookup_outside.
      rewrite length_take_le by lia. lia.
Qed.

(** C9.  When the mesh loads, the graph is built with one node, and one
    adjacency list, per face, the number of faces being a third of the
    length of the face vector; no later stage changes the number of nodes. *)
Theorem graph_has_one_node_per_face e conf mesh :
  loads e conf mesh →
  num_nodes (built_graph mesh) = length (get_faces mesh) `div` 3 ∧
  length (adj_lists (built_graph mesh)) = length (get_faces mesh) `div` 3 ∧
  num_nodes (graph (run e).2) = length (get_faces mesh) `div` 3.
Proof.
  intros Hloads. split_and!.
  - apply num_nodes_built_graph.
  - unfold built_graph, build_adjacency_graph; simpl.
    rewrite length_fmap, length_seq. apply num_nodes_built_graph.
  - rewrite (run_loads e conf mesh Hloads). unfold view_selection_stage.
    destruct (empty (labeling_file conf)).
    + rewrite compute_labeling_run; cbv zeta.
      change (graph (built mesh)) with (built_graph mesh).
      destruct (empty (data_cost_file conf)); [|destruct (env_load_data_costs e)]; simpl;
        rewrite ?num_nodes_view_selection; apply num_nodes_built_graph.
    + rewrite load_labeling_run. change (graph (built mesh)) with (built_graph mesh).
      case_bool_decide; [|destruct (first_rejected _ _)]; simpl;
        rewrite ?num_nodes_store_labels; apply num_nodes_built_graph.
Qed.

(** C8.  The data costs are to be loaded from a file and the run gets to
    it.  If the loader throws, the run writes the exception's message to
    [std::cerr] and exits with [EXIT_FAILURE], which is not zero; the
    attempt to load and the message are the last two events, so that no
    further stage runs. *)
Theorem data_cost_load_failure_is_fatal e conf mesh what :
  loads e conf mesh → empty (labeling_file conf) = true →
  empty (data_cost_file conf) = false → env_load_data_costs e = Some what →
  (run e).1 = Exited EXIT_FAILURE ∧ EXIT_FAILURE ≠ 0%Z ∧
  trace (run e).2 =
    [TimerMeasure "Start"%string; PrepareMesh; GenerateTextureViews; WriteConf;
     TimerMeasure "Loading"%string; BuildAdjacencyGraph; LoadDataCosts; Cerr what] ∧
  texture_patches (run e).2 = [].
Proof.
  intros Hloads Hfile Hcosts Hload. rewrite (run_loads e conf mesh Hloads).
  unfold view_selection_stage. rewrite Hfile, compute_labeling_run, Hcosts, Hload.
  done.
Qed.

(** ** The zero adjustment *)

Lemma adjusted_at_nil ps : adjusted_at [] ps = ps.
Proof.
  unfold adjusted_at. apply list_eq; intros j. rewrite list_lookup_imap.
  by destruct (ps !! j).
Qed.

Lemma adjusted_at_cons i done ps q :
  ps !! i = Some q → i ∉ done →
  adjusted_at done (<[i := zero_adjust q]> ps) = adjusted_at (i :: done) ps.
Proof.
  intros Hq Hnew. unfold adjusted_at. apply list_eq; intros j.
  rewrite !list_lookup_imap. destruct (decide (i = j)) as [<-|Hne].
  - rewrite list_lookup_insert_eq by (by eapply lookup_lt_Some). rewrite Hq; simpl.
    rewrite bool_decide_eq_false_2 by done.
    by rewrite bool_decide_eq_true_2 by apply list_elem_of_here.
  - rewrite list_lookup_insert_ne by done. destruct (ps !! j) as [q'|]; [|done]; simpl.
    assert (bool_decide (j ∈ i :: done) = bool_decide (j ∈ done)) as ->; [|done].
    apply bool_decide_ext. rewrite elem_of_cons. split; [by intros [->|?]|by right].
Qed.

Lemma adjusted_at_all (order : list nat) ps :
  order ≡ₚ seq 0 (length ps) → adjusted_at order ps = zero_adjust <$> ps.
Proof.
  intros Hperm. unfold adjusted_at. apply list_eq; intros j.
  rewrite list_lookup_imap, list_lookup_fmap.
  destruct (ps !! j) as [q|] eqn:Hj; [|done]; simpl.
  rewrite bool_decide_eq_true_2; [done|].
  rewrite Hperm. apply elem_of_seq. apply lookup_lt_Some in Hj. lia.
Qed.

Lemma adjustment_of_insert_ne ps i j q :
  i ≠ j → adjustment_of (<[i := q]> ps) j = adjustment_of ps j.
Proof. intros Hne. unfold adjustment_of. by rewrite list_lookup_insert_ne. Qed.

Lemma omap_adjustment_of_insert ps i q (order : list nat) :
  i ∉ order →
  omap (adjustment_of (<[i := q]> ps)) order = omap (adjustment_of ps) order.
Proof.
  intros Hnew. apply list_omap_ext, Forall_Forall2_diag, Forall_forall.
  intros j Hj. apply adjustment_of_insert_ne. by intros ->.
Qed.

(** The loop of lines 186-192 over any indices without repetition: each
    iteration adjusts its own patch and leaves the others alone. *)
Lemma for_each_adjust_any_order (order : list nat) p :
  NoDup order → (∀ i, i ∈ order → i < length (texture_patches p)) →
  for_each order adjust_patch p =
  (Ret (),
   {| graph := graph p;
      texture_patches := adjusted_at order (texture_patches p);
      trace := trace p ++ omap (adjustment_of (texture_patches p)) order |}).
Proof.
  revert p; induction order as [|i order IH]; intros p Hnodup Hbound; cbn [for_each].
  - rewrite adjusted_at_nil; simpl. rewrite app_nil_r. by destruct p.
  - apply NoDup_cons in Hnodup as [Hnew Hnodup].
    destruct (lookup_lt_is_Some_2 (texture_patches p) i) as [q Hq].
    { apply Hbound, list_elem_of_here. }
    mred. rewrite (adjust_patch_run i p q Hq). rewrite IH; cbn [graph texture_patches trace].
    + rewrite (adjusted_at_cons i order _ q Hq Hnew).
      rewrite omap_adjustment_of_insert by done.
      simpl. unfold adjustment_of at 2. rewrite Hq; simpl.
      by rewrite <- app_assoc.
    + done.
    + intros j Hj. rewrite length_insert. apply Hbound. by apply list_elem_of_further.
Qed.

(** In whatever order the iterations run, every patch ends up adjusted
    once, by its own zero vector. *)
Lemma validity_masks_in_run (order : list nat) p :
  order ≡ₚ seq 0 (length (texture_patches p)) →
  validity_masks_in order p =
  (Ret (),
   {| graph := graph p;
      texture_patches := zero_adjust <$> texture_patches p;
      trace := trace p ++ omap (adjustment_of (texture_patches p)) order ++
               [TimerMeasure "Calculating texture patch validity masks"%string] |}).
Proof.
  intros Hperm. unfold validity_masks_in. mred.
  rewrite for_each_adjust_any_order.
  - mred. by rewrite (adjusted_at_all order _ Hperm), <- app_assoc.
  - rewrite Hperm. apply NoDup_seq.
  - intros i Hi. rewrite Hperm in Hi. apply elem_of_seq in Hi. lia.
Qed.

(** The stage as modelled is the loop in index order. *)
Lemma global_stage_disabled e conf p :
  global_seam_leveling (settings conf) = false →
  global_stage e conf p = validity_masks_in (seq 0 (length (texture_patches p))) p.
Proof.
  intros Hglobal. unfold global_stage, calculate_validity_masks, validity_masks_in.
  rewrite Hglobal. by mred.
Qed.

(** A run that returns with the global leveling disabled has not called
    it and has adjusted every generated patch. *)
Lemma zero_adjustments_in_run e conf mesh :
  global_seam_leveling (settings conf) = false →
  loads e conf mesh → (run e).1 = Ret () →
  (GlobalSeamLeveling ∉ trace (run e).2) ∧
  ∀ i q, env_generate_texture_patches e (graph (run e).2) !! i = Some q →
    AdjustColors i (zero_adjust_values q) ∈ trace (run e).2.
Proof.
  intros Hglobal Hloads. rewrite (run_loads e conf mesh Hloads).
  destruct (view_selection_stage e conf (built mesh)) as [[[]|code] p] eqn:Hstage;
    [intros _|done].
  apply view_selection_stage_events in Hstage as (t & Htrace & Hearly).
  unfold finished, textured, log, texturing_events, global_events, adjust_events.
  rewrite Hglobal; cbn [fst snd trace graph]. rewrite Htrace. split.
  - intros Hin. in_cases Hin; try by trace_cases Hin.
    rewrite Forall_forall in Hearly. by apply Hearly in Hin.
  - intros i q Hq.
    in_search ltac:(by apply
      (elem_of_lookup_imap_2 (λ i q, AdjustColors i (zero_adjust_values q)) _ q i)).
Qed.


(** ** The local leveling *)

(** C6 (as amended).  In a run that gets past the view selection the local
    seam leveling is called exactly when its own flag is set, whatever the
    flag of the global leveling.  When it is called, it is called once,
    after the patches were generated and after the global stage (the global
    leveling if that is enabled, the zero adjustments if not) with its timer
    mark, and before the atlases are generated. *)
Theorem local_leveling_follows_its_own_flag e conf mesh :
  loads e conf mesh → (run e).1 = Ret () →
  (LocalSeamLeveling ∈ trace (run e).2 ↔ local_seam_leveling (settings conf) = true) ∧
  (local_seam_leveling (settings conf) = true →
   ∃ t1 t2,
     trace (run e).2 = t1 ++ LocalSeamLeveling :: t2 ∧
     (LocalSeamLeveling ∉ t1) ∧ (LocalSeamLeveling ∉ t2) ∧
     GenerateTexturePatches (graph_labeling (graph (run e).2)) ∈ t1 ∧
     (GlobalSeamLeveling ∈ t1 ↔ global_seam_leveling (settings conf) = true) ∧
     (TimerMeasure "Running global seam leveling"%string ∈ t1 ∨
      TimerMeasure "Calculating texture patch validity masks"%string ∈ t1) ∧
     (GlobalSeamLeveling ∉ t2) ∧ (∀ i v, AdjustColors i v ∉ t2) ∧
     GenerateTextureAtlases ∈ t2).
Proof.
  intros Hloads. rewrite (run_loads e conf mesh Hloads).
  destruct (view_selection_stage e conf (built mesh)) as [[[]|code] p] eqn:Hstage;
    [intros _|done].
  apply view_selection_stage_events in Hstage as (t & Htrace & Hearly).
  rewrite Forall_forall in Hearly.
  cbn [fst snd]. split.
  - split.
    + intros Hin. unfold finished, textured, log, texturing_events, local_events in Hin.
      cbn [trace graph] in Hin. rewrite Htrace in Hin.
      destruct (local_seam_leveling (settings conf)); [done|].
      in_cases Hin; try by trace_cases Hin. by apply Hearly in Hin.
    + intros Hlocal. unfold finished, textured, log, texturing_events, local_events.
      rewrite Hlocal. cbn [trace graph]. in_search fail.
  - intros Hlocal.
    exists (trace p ++ [GenerateTexturePatches (graph_labeling (graph p))] ++
            global_events conf (env_generate_texture_patches e (graph p))),
      ([TimerMeasure "Running local seam leveling"%string; GenerateTextureAtlases] ++
       closing_events conf ++ view_selection_model_events conf (graph p)).
    split_and!.
    + unfold finished, textured, log, texturing_events, local_events.
      rewrite Hlocal. cbn [trace graph]. by rewrite <- !app_assoc.
    + rewrite Htrace. intros Hin. in_cases Hin; try by trace_cases Hin.
      by apply Hearly in Hin.
    + intros Hin. by trace_cases Hin.
    + cbn [graph finished textured log]. in_search fail.
    + rewrite Htrace. unfold global_events. split.
      * intros Hin. destruct (global_seam_leveling (settings conf)); [done|].
        in_cases Hin; try by trace_cases Hin. by apply Hearly in Hin.
      * intros ->. in_search fail.
    + unfold global_events.
      destruct (global_seam_leveling (settings conf)); [left|right]; in_search fail.
    + intros Hin. by trace_cases Hin.
    + intros i v Hin. by trace_cases Hin.
    + in_search fail.
Qed.

(** ** The order of the stages *)

Lemma in_sequence_from_mono r r' l :
  r ≤ r' → in_sequence_from r' l = true → in_sequence_from r l = true.
Proof.
  destruct l as [|s l]; simpl; [done|]. intros Hle.
  rewrite !andb_true_iff, !Nat.leb_le. intros [Hs Hl]. split; [lia|done].
Qed.

Lemma in_sequence_from_app r mid l1 l2 :
  r ≤ mid → in_sequence_from r l1 = true → Forall (λ s, rank s ≤ mid) l1 →
  in_sequence_from mid l2 = true → in_sequence_from r (l1 ++ l2) = true.
Proof.
  revert r; induction l1 as [|s l1 IH]; intros r Hle Hl1 Hmid Hl2; simpl in *.
  - by apply (in_sequence_from_mono r mid).
  - apply andb_true_iff in Hl1 as [Hs Hl1]. inversion Hmid; subst.
    rewrite Hs; simpl. by apply IH.
Qed.

Lemma between_app lo mid hi t1 t2 :
  between lo mid t1 → between mid hi t2 → between lo hi (t1 ++ t2).
Proof.
  unfold between, stages. intros (Hle1 & Hseq1 & Hhi1) (Hle2 & Hseq2 & Hhi2).
  rewrite omap_app. split_and!; [lia| |].
  - by apply (in_sequence_from_app lo mid).
  - apply Forall_app. split; [|done].
    eapply Forall_impl; [exact Hhi1|]. simpl. lia.
Qed.

Lemma between_weaken lo lo' hi hi' t :
  lo ≤ lo' → hi' ≤ hi → between lo' hi' t → between lo hi t.
Proof.
  unfold between. intros Hlo Hhi (Hle & Hseq & Hall). split_and!; [lia| |].
  - by apply (in_sequence_from_mono lo lo').
  - eapply Forall_impl; [exact Hall|]. simpl. lia.
Qed.

Lemma between_same_stage s t :
  Forall (λ ev, stage_of ev = Some s) t → between (rank s) (rank s) t.
Proof.
  intros Hall. unfold between, stages. split; [done|].
  induction Hall as [|ev t Hev _ [IHseq IHall]]; simpl; [done|].
  rewrite Hev; simpl. rewrite Nat.leb_refl; simpl. split; [done|]. by constructor.
Qed.

Lemma between_adjust_events ps : between 4 4 (adjust_events ps).
Proof.
  apply (between_same_stage SeamLeveling). apply Forall_forall. intros ev Hin.
  unfold adjust_events in Hin. by apply elem_of_lookup_imap_1 in Hin as (i & q & -> & _).
Qed.

(** A list of events given in full: its stages are computed. *)
Ltac between_compute :=
  unfold between, stages; cbn [omap list_omap stage_of];
  split_and!; [lia|reflexivity|repeat constructor; simpl; lia].

Lemma between_built mesh : between 0 0 (trace (built (F:=F) mesh)).
Proof. unfold built; cbn [trace]. between_compute. Qed.

(** The view selection runs its stages in sequence. *)
Lemma view_selection_stage_between e conf p o p' :
  view_selection_stage e conf p = (o, p') →
  ∃ t, trace p' = trace p ++ t ∧ between 0 2 t.
Proof.
  unfold view_selection_stage. destruct (empty (labeling_file conf)).
  - rewrite compute_labeling_run; cbv zeta.
    unfold data_costs_events, selection_events, log, with_graph.
    destruct (empty (data_cost_file conf)), (write_intermediate_results conf),
      (env_load_data_costs e); intros [= <- <-]; eexists; (split; [done|]);
      cbn [app]; between_compute.
  - rewrite load_labeling_run. unfold log, with_graph.
    case_bool_decide; [|destruct (first_rejected _ _)]; intros [= <- <-];
      eexists; (split; [done|]); between_compute.
Qed.

Lemma between_texturing_events e conf g : between 2 5 (texturing_events e conf g).
Proof.
  unfold texturing_events, global_events, local_events.
  apply (between_app 2 3 5); [between_compute|].
  apply (between_app 3 4 5).
  { destruct (global_seam_leveling (settings conf)); [between_compute|].
    apply (between_app 3 4 4); [|between_compute].
    apply (between_weaken 3 4 4 4); [lia|lia|]. apply between_adjust_events. }
  destruct (local_seam_leveling (settings conf)); cbn [app]; between_compute.
Qed.

Lemma between_closing_events conf : between 5 6 (closing_events (F:=F) conf).
Proof.
  unfold closing_events. destruct (write_timings conf); cbn [app]; between_compute.
Qed.

(** C7 (as amended).  Up to the optional view-selection model, the stages
    of every run are called in the sequence graph construction, data costs,
    labeling, patch generation, seam leveling, atlas packing, model
    building, each call returning before the next is made; a stage that is
    skipped or not reached leaves no call.  What follows is, when the
    view-selection model is asked for, one more patch generation, atlas
    packing and model building, in that order, and nothing otherwise. *)
Theorem stages_in_sequence_up_to_view_selection_model e :
  stages_in_sequence (trace (main_pass e initial).2) ∧
  ∃ t, trace (run e).2 = trace (main_pass e initial).2 ++ t ∧
       stages t =
         match (main_pass e initial).1 with
         | Ret conf =>
             if write_view_selection_model conf
             then [PatchGeneration; AtlasPacking; ModelBuilding]
             else []
         | Exited _ => []
         end.
Proof.
  split.
  - destruct (main_pass_cases e) as [(conf & mesh & Hloads)|[msg ->]]; [|done].
    rewrite (main_pass_loads e conf mesh Hloads).
    destruct (view_selection_stage e conf (built mesh)) as [[[]|code] p] eqn:Hstage;
      apply view_selection_stage_between in Hstage as (t & Htrace & Hbetween);
      cbn [fst snd]; unfold textured; cbn [trace]; rewrite Htrace.
    + assert (between 0 6 ((trace (built mesh) ++ t) ++
                texturing_events e conf (graph p) ++ closing_events conf))
        as (_ & Hseq & _); [|done].
      apply (between_app 0 2 6).
      { apply (between_app 0 0 2); [apply between_built|done]. }
      apply (between_app 2 5 6);
        [apply between_texturing_events|apply between_closing_events].
    + assert (between 0 2 (trace (built mesh) ++ t)) as (_ & Hseq & _); [|done].
      apply (between_app 0 0 2); [apply between_built|done].
  - rewrite run_main_pass. destruct (main_pass e initial) as [[conf|code] p]; cbn [fst snd].
    + exists (view_selection_model_events conf (graph p)). split; [done|].
      unfold view_selection_model_events. by destruct (write_view_selection_model conf).
    + exists []. by rewrite app_nil_r.
Qed.

(** ** Outcomes *)

(** Case analysis on a run that gets to the graph: the branch of the view
    selection and how it ends. *)
Ltac run_cases e conf mesh Hloads :=
  rewrite (run_loads e conf mesh Hloads); unfold view_selection_stage;
  destruct (empty (labeling_file conf)) eqn:Hfile;
  [ rewrite compute_labeling_run; cbv zeta;
    destruct (empty (data_cost_file conf)) eqn:Hcosts;
    [|destruct (env_load_data_costs e) as [what|] eqn:Hload]
  | rewrite load_labeling_run; change (graph (built mesh)) with (built_graph mesh);
    case_bool_decide as Hcount;
    [|destruct (first_rejected (env_num_views e) (env_labeling e)) as [k|] eqn:Hfirst] ];
  cbn [fst snd].

Lemma loads_inj e conf mesh conf' mesh' :
  loads e conf mesh → loads e conf' mesh' → conf' = conf ∧ mesh' = mesh.
Proof. intros (Hp & _ & Hm) (Hp' & _ & Hm'). split; congruence. Qed.

(** A run gets to the graph, or stops after one diagnostic. *)
Lemma run_prelude_cases e :
  (∃ conf mesh, loads e conf mesh) ∨
  ((¬ ∃ conf mesh, loads e conf mesh) ∧
   ∃ msg, run e = (Exited EXIT_FAILURE, log initial [TimerMeasure "Start"%string; Cerr msg])).
Proof.
  rewrite run_main_pass.
  unfold loads, main_pass, parse_arguments, check_destination, load_mesh.
  destruct (env_parse_args e) as [what|conf] eqn:Hp.
  { right. split; [|by eexists]. by intros (conf & mesh & ? & _). }
  destruct (env_dir_exists e) eqn:Hd.
  2:{ right. split; [|by eexists]. by intros (conf' & mesh & _ & ? & _). }
  destruct (env_load_ply_mesh e) as [what|mesh] eqn:Hm.
  { right. split; [|by eexists]. by intros (conf' & mesh & _ & _ & ?). }
  left. by exists conf, mesh.
Qed.

(** The zero adjustments leave nothing among the observations. *)
Lemma omap_adjust_events {A} (f : Event (F:=F) → option A) ps :
  (∀ i v, f (AdjustColors i v) = None) → omap f (adjust_events ps) = [].
Proof.
  intros Hf. unfold adjust_events.
  assert (∀ g : nat → TexturePatch F → Event (F:=F),
            (∀ i q, f (g i q) = None) → omap f (imap g ps) = []) as Hgen.
  { induction ps as [|q ps IH]; intros g Hg; [done|].
    rewrite imap_cons; simpl. rewrite Hg. apply IH. intros i q'. apply Hg. }
  apply Hgen. intros i q. apply Hf.
Qed.

Lemma first_rejected_None_le num_views labeling :
  first_rejected num_views labeling = None ↔
  Forall (λ label, (label ≤ N.of_nat num_views)%N) labeling.
Proof.
  rewrite first_rejected_None. split; intros Hall;
    (eapply Forall_impl; [exact Hall|]); intros label; by rewrite rejected_false.
Qed.

(** X1.  Of the runs in which the calls that [main] does not guard return,
    the reading of the labeling file at line 138 among them, a run returns
    exactly when the arguments parse, the destination directory exists, the
    mesh loads and the view selection goes through; and whenever [main]
    itself ends the run, by any of its calls of [std::exit], the status is
    [EXIT_FAILURE]. *)
Theorem run_returns_iff e :
  ((run e).1 = Ret () ↔ ∃ conf mesh, loads e conf mesh ∧ selection_succeeds e conf mesh) ∧
  (∀ code, (run e).1 = Exited code → code = EXIT_FAILURE).
Proof.
  assert (((run e).1 = Ret () ∨ (run e).1 = Exited EXIT_FAILURE) →
          ∀ code, (run e).1 = Exited code → code = EXIT_FAILURE) as Hstatus.
  { intros [Hret|Hexit] code Hcode; rewrite Hcode in *; congruence. }
  cut (((run e).1 = Ret () ↔
         ∃ conf mesh, loads e conf mesh ∧ selection_succeeds e conf mesh) ∧
       ((run e).1 = Ret () ∨ (run e).1 = Exited EXIT_FAILURE)).
  { intros [Hiff Hor]. split; [done|by apply Hstatus]. }
  clear Hstatus.
  destruct (main_pass_cases e) as [(conf & mesh & Hloads)|[msg Hrun]].
  - assert (((run e).1 = Ret () ↔ selection_succeeds e conf mesh) ∧
            ((run e).1 = Ret () ∨ (run e).1 = Exited EXIT_FAILURE)) as [Hiff Hor].
    { unfold selection_succeeds. run_cases e conf mesh Hloads.
      - split; [|by left]. split; [by left|done].
      - split; [|by right]. split; [done|]. by intros [?|?].
      - split; [|by left]. split; [by right|done].
      - split; [|by right]. split; [done|]. by intros [? _].
      - split; [|by right]. split; [done|]. intros [_ Hall].
        apply first_rejected_None_le in Hall. congruence.
      - split; [|by left]. split; [|done]. intros _. split; [done|].
        by apply first_rejected_None_le. }
    split; [|done]. rewrite Hiff. split.
    + intros Hsel. by exists conf, mesh.
    + intros (conf' & mesh' & Hloads' & Hsel).
      by destruct (loads_inj e conf mesh conf' mesh' Hloads Hloads') as [-> ->].
  - assert (¬ ∃ conf mesh, loads e conf mesh) as Hnot.
    { intros (conf & mesh & Hloads).
      rewrite (main_pass_loads e conf mesh Hloads) in Hrun.
      destruct (view_selection_stage e conf (built mesh)) as [[[]|code] p] eqn:Hstage;
        [done|].
      apply view_selection_stage_events in Hstage as (t & Htrace & _).
      injection Hrun as _ ->. by destruct t. }
    rewrite run_main_pass, Hrun; cbn [fst snd]. split; [|by right].
    split; [done|]. intros (conf & mesh & Hloads & _). destruct Hnot. by exists conf, mesh.
Qed.

(** The closed forms of a run unfolded, the flags decided, and the
    observations computed. *)
Ltac unfold_run :=
  unfold finished, textured, log, with_graph, texturing_events, global_events,
    local_events, closing_events, view_selection_model_events, data_costs_events,
    selection_events, built, initial;
  cbn [trace graph texture_patches fst snd].

Ltac flag_cases :=
  repeat match goal with |- context [if ?b then _ else _] => destruct b eqn:? end.

Ltac observe :=
  unfold diagnostics, timer_marks, saved_models, patch_labelings;
  repeat progress
    (rewrite ?omap_app, ?omap_adjust_events by done;
     cbn [omap list_omap app diagnostic_of timer_mark_of saved_model_of
          patch_labeling_of]).

(** X2.  A run that returns has written no diagnostic.  A run that exits
    has written exactly one, as its last event, and has generated no patch,
    called no leveling, packed no atlas, built and saved no model and
    written no timings. *)
Theorem exit_follows_the_only_diagnostic e :
  match (run e).1 with
  | Ret _ => diagnostics (trace (run e).2) = []
  | Exited _ =>
      ∃ msg, diagnostics (trace (run e).2) = [msg] ∧
             last (trace (run e).2) = Some (Cerr msg) ∧
             Forall (λ ev, output_event ev = false) (trace (run e).2) ∧
             texture_patches (run e).2 = []
  end.
Proof.
  destruct (run_prelude_cases e) as [(conf & mesh & Hloads)|[_ [msg ->]]].
  - run_cases e conf mesh Hloads; unfold_run;
      first [ by (flag_cases; observe)
            | eexists; split_and!; [by observe|done|by repeat constructor|done] ].
  - exists msg. unfold_run. split_and!; [done|done|by repeat constructor|done].
Qed.

(** X3.  Before the graph is built the arguments, the destination
    directory and the mesh are checked in this order, and the first check
    that fails is the one reported: the run exits with [EXIT_FAILURE] after
    the start mark and that single diagnostic, with nothing prepared,
    written or built. *)
Theorem failure_before_the_graph e :
  (∀ what, env_parse_args e = inl what →
     run e = (Exited EXIT_FAILURE, log initial [TimerMeasure "Start"%string; Cerr what])) ∧
  (∀ conf, env_parse_args e = inr conf → env_dir_exists e = false →
     run e = (Exited EXIT_FAILURE,
              log initial [TimerMeasure "Start"%string;
                           Cerr "Destination directory does not exist!"%string])) ∧
  (∀ conf what,
     env_parse_args e = inr conf → env_dir_exists e = true →
     env_load_ply_mesh e = inl what →
     run e = (Exited EXIT_FAILURE,
              log initial [TimerMeasure "Start"%string;
                           Cerr (tab ++ "Could not load mesh: " ++ what)%string])).
Proof.
  rewrite run_main_pass.
  unfold main_pass, parse_arguments, check_destination, load_mesh. split_and!.
  - by intros what ->.
  - by intros conf -> ->.
  - by intros conf what -> -> ->.
Qed.

(** X4.  The configuration file is written exactly in the runs that get to
    the graph; a run that exits later, at the data costs or at the labeling
    file, has written it all the same. *)
Theorem conf_written_iff_loads e :
  WriteConf ∈ trace (run e).2 ↔ ∃ conf mesh, loads e conf mesh.
Proof.
  destruct (run_prelude_cases e) as [(conf & mesh & Hloads)|[Hnot [msg Hrun]]].
  - split; [intros _; by exists conf, mesh|intros _].
    run_cases e conf mesh Hloads; unfold_run; in_search fail.
  - split; [|done]. rewrite Hrun. unfold initial. intros Hin. by trace_cases Hin.
Qed.

(** X5.  Intermediate results are written only on request and only by the
    branch that computes them: the data costs when there is neither a
    labeling file nor a data-cost file, the labeling when there is no
    labeling file and the data costs were computed or loaded.  With a
    labeling file nothing is written, whatever the flag. *)
Theorem intermediate_results_written_iff e :
  (SaveDataCosts ∈ trace (run e).2 ↔
   ∃ conf mesh, loads e conf mesh ∧ empty (labeling_file conf) = true ∧
                empty (data_cost_file conf) = true ∧
                write_intermediate_results conf = true) ∧
  ((∃ labeling, SaveLabeling labeling ∈ trace (run e).2) ↔
   ∃ conf mesh, loads e conf mesh ∧ empty (labeling_file conf) = true ∧
                (empty (data_cost_file conf) = true ∨ env_load_data_costs e = None) ∧
                write_intermediate_results conf = true).
Proof.
  destruct (run_prelude_cases e) as [(conf & mesh & Hloads)|[Hnot [msg Hrun]]].
  2:{ rewrite Hrun. unfold initial.
      split; (split; [|by intros (conf & mesh & Hloads & _);
                          destruct Hnot; exists conf, mesh]).
      - intros Hin. by trace_cases Hin.
      - intros [labeling Hin]. by trace_cases Hin. }
  assert ((SaveDataCosts ∈ trace (run e).2 ↔
           empty (labeling_file conf) = true ∧ empty (data_cost_file conf) = true ∧
           write_intermediate_results conf = true) ∧
          ((∃ labeling, SaveLabeling labeling ∈ trace (run e).2) ↔
           empty (labeling_file conf) = true ∧
           (empty (data_cost_file conf) = true ∨ env_load_data_costs e = None) ∧
           write_intermediate_results conf = true)) as [Hcosts Hlabeling].
  { run_cases e conf mesh Hloads;
      destruct (write_intermediate_results conf) eqn:Hwrite;
      (split; split;
       [ intros Hin; first [by trace_cases Hin | done]
       | first [ by intros (? & ? & ?)
               | intros _; unfold_run; rewrite Hwrite; in_search fail ]
       | intros [labeling Hin]; first [by trace_cases Hin | split_and!; auto]
       | first [ by intros (? & [?|?] & ?)
               | intros _; eexists; unfold_run; rewrite Hwrite; in_search fail ] ]). }
  split.
  - rewrite Hcosts. split.
    + intros Hthree. by exists conf, mesh.
    + intros (conf' & mesh' & Hloads' & Hthree).
      by destruct (loads_inj e conf mesh conf' mesh' Hloads Hloads') as [-> ->].
  - rewrite Hlabeling. split.
    + intros Hthree. by exists conf, mesh.
    + intros (conf' & mesh' & Hloads' & Hthree).
      by destruct (loads_inj e conf mesh conf' mesh' Hloads Hloads') as [-> ->].
Qed.

(** ** Labelings saved, loaded and used *)

(** A labeling is only saved by a run that returns, from the graph as it
    stays until the end. *)
Lemma saved_labeling_loads e conf mesh labeling :
  loads e conf mesh → SaveLabeling labeling ∈ trace (run e).2 →
  (run e).1 = Ret () ∧ labeling = labels (graph (run e).2) ∧
  length labeling = face_count mesh ∧
  GenerateTexturePatches labeling ∈ trace (run e).2.
Proof.
  intros Hloads.
  run_cases e conf mesh Hloads; intros Hin; try by trace_cases Hin.
  - trace_cases Hin. injection Hin as ->. rewrite graph_labeling_labels.
    split_and!; [done|done| |unfold_run; rewrite graph_labeling_labels; in_search fail].
    etrans; [apply num_nodes_view_selection|apply num_nodes_built_graph].
  - trace_cases Hin. injection Hin as ->. rewrite graph_labeling_labels.
    split_and!; [done|done| |unfold_run; rewrite graph_labeling_labels; in_search fail].
    etrans; [apply num_nodes_view_selection|apply num_nodes_built_graph].
Qed.

(** X6.  A labeling written to the labeling file is the labeling of the
    graph at the end of a run that returns, the one the patches of that run
    were generated from, with one label per face of the mesh. *)
Theorem saved_labeling_is_the_one_used e labeling :
  SaveLabeling labeling ∈ trace (run e).2 →
  (run e).1 = Ret () ∧ labeling = labels (graph (run e).2) ∧
  GenerateTexturePatches labeling ∈ trace (run e).2 ∧
  ∀ conf mesh, loads e conf mesh → length labeling = length (get_faces mesh) `div` 3.
Proof.
  intros Hin. destruct (run_prelude_cases e) as [(conf & mesh & Hloads)|[_ [msg Hrun]]].
  - destruct (saved_labeling_loads e conf mesh labeling Hloads Hin)
      as (Hret & Hlabels & Hlength & Hused).
    split_and!; [done|done|done|]. intros conf' mesh' Hloads'.
    by destruct (loads_inj e conf mesh conf' mesh' Hloads Hloads') as [-> ->].
  - rewrite Hrun in Hin. unfold initial in Hin. by trace_cases Hin.
Qed.

(** X7.  The graph is not touched after the view selection: every patch
    generation of a run, the one of the view-selection model included, is
    given the labels the graph has at the end.  A run that returns generates
    patches once, or twice when the view-selection model is asked for; a run
    that exits generates none. *)
Theorem patches_generated_from_final_labels e conf mesh :
  loads e conf mesh →
  patch_labelings (trace (run e).2) =
  match (run e).1 with
  | Ret _ =>
      replicate (if write_view_selection_model conf then 2 else 1)
        (labels (graph (run e).2))
  | Exited _ => []
  end.
Proof.
  intros Hloads.
  run_cases e conf mesh Hloads; unfold_run; flag_cases; observe;
    by rewrite ?graph_labeling_labels.
Qed.

(** X11.  A labeling saved by one run can be supplied to another run on the
    same mesh: it has the right number of labels, and when none of its
    labels is above the number of views of the second run, that run returns,
    ends with the labels of the first run in its graph and generates its
    patches from them. *)
Theorem saved_labeling_reloads e1 conf1 e2 conf2 mesh labeling :
  loads e1 conf1 mesh → loads e2 conf2 mesh →
  SaveLabeling labeling ∈ trace (run e1).2 →
  empty (labeling_file conf2) = false → env_labeling e2 = labeling →
  Forall (λ label, (label ≤ N.of_nat (env_num_views e2))%N) labeling →
  (run e2).1 = Ret () ∧
  labels (graph (run e2).2) = labels (graph (run e1).2) ∧
  GenerateTexturePatches labeling ∈ trace (run e2).2.
Proof.
  intros Hloads1 Hloads2 Hsaved Hfile Hsupplied Hrange.
  destruct (saved_labeling_loads e1 conf1 mesh labeling Hloads1 Hsaved)
    as (_ & Hlabels & Hlength & _).
  rewrite <- Hlabels. rewrite (run_labeling_file e2 conf2 mesh Hloads2 Hfile), Hsupplied.
  rewrite bool_decide_eq_false_2 by (rewrite num_nodes_built_graph; by intros ?).
  apply first_rejected_None_le in Hrange. rewrite Hrange.
  assert (labels (store_labels labeling 0 (built_graph mesh)) = labeling) as Hstored.
  { apply store_labels_all. by rewrite num_nodes_built_graph. }
  split_and!; [done|done|]. unfold_run. rewrite graph_labeling_labels, Hstored.
  in_search fail.
Qed.

(** ** Timings, models and leveled patches *)

(** X8.  The timer marks of a run that returns, in order: the two marks of
    the view selection are missing when a labeling file is supplied, the
    mark of the global stage names the branch that ran, and the mark of the
    local leveling is taken whether or not the local leveling is enabled. *)
Theorem timer_marks_of_a_returning_run e conf mesh :
  loads e conf mesh → (run e).1 = Ret () →
  timer_marks (trace (run e).2) =
  ["Start"; "Loading"]%string ++
  (if empty (labeling_file conf)
   then ["Calculating data costs"; "Running MRF optimization"]%string else []) ++
  [if global_seam_leveling (settings conf)
   then "Running global seam leveling"%string
   else "Calculating texture patch validity masks"%string] ++
  ["Running local seam leveling"; "Building OBJ model"; "Saving"; "Total"]%string.
Proof.
  intros Hloads.
  run_cases e conf mesh Hloads; try done; intros _; unfold_run; flag_cases; by observe.
Qed.

(** X9.  A run that returns saves the textured model once, under the
    output prefix itself, and after it the view-selection model under the
    suffix [_view_selection] when that is asked for; a run that exits saves
    no model. *)
Theorem models_saved e conf mesh :
  loads e conf mesh →
  saved_models (trace (run e).2) =
  match (run e).1 with
  | Ret _ =>
      EmptyString ::
      (if write_view_selection_model conf then ["_view_selection"%string] else [])
  | Exited _ => []
  end.
Proof.
  intros Hloads.
  run_cases e conf mesh Hloads; unfold_run; flag_cases; by observe.
Qed.

(** X10.  With global seam leveling enabled [main] adjusts no patch
    itself; in a run that returns the global leveling is called, and the
    patches at the end are those it made of the generated patches, passed
    through the local leveling when that is enabled. *)
Theorem global_leveling_replaces_zero_adjustment e conf mesh :
  loads e conf mesh → global_seam_leveling (settings conf) = true →
  (∀ i v, AdjustColors i v ∉ trace (run e).2) ∧
  ((run e).1 = Ret () →
   GlobalSeamLeveling ∈ trace (run e).2 ∧
   texture_patches (run e).2 =
     let g := graph (run e).2 in
     let leveled := env_global_seam_leveling e g (env_generate_texture_patches e g) in
     if local_seam_leveling (settings conf)
     then env_local_seam_leveling e g leveled else leveled).
Proof.
  intros Hloads Hglobal. split.
  - intros i v. run_cases e conf mesh Hloads; intros Hin;
      unfold finished, textured, log, with_graph, texturing_events, global_events in Hin;
      rewrite ?Hglobal in Hin; by trace_cases Hin.
  - run_cases e conf mesh Hloads; try done; intros _;
      unfold finished, textured, log, with_graph, texturing_events, global_events,
        global_patches, local_patches;
      rewrite Hglobal; cbn [trace graph texture_patches]; (split; [in_search fail|done]).
Qed.

(** X12.  The timings file is written exactly by the runs that return
    with the timings asked for; a run that exits writes none. *)
Theorem timings_written_iff e :
  WriteTimings ∈ trace (run e).2 ↔
  ∃ conf mesh, loads e conf mesh ∧ (run e).1 = Ret () ∧ write_timings conf = true.
Proof.
  destruct (run_prelude_cases e) as [(conf & mesh & Hloads)|[Hnot [msg Hrun]]].
  2:{ rewrite Hrun. unfold initial. split; [|by intros (conf & mesh & _ & ? & _)].
      intros Hin. by trace_cases Hin. }
  assert (WriteTimings ∈ trace (run e).2 ↔
          (run e).1 = Ret () ∧ write_timings conf = true) as ->.
  { run_cases e conf mesh Hloads; destruct (write_timings conf) eqn:Htimings;
      (split;
       [ intros Hin; first [by trace_cases Hin | done]
       | first [ by intros [? ?]
               | intros _; unfold_run; rewrite Htimings; in_search fail ] ]). }
  split.
  - intros Htwo. by exists conf, mesh.
  - intros (conf' & mesh' & Hloads' & Htwo).
    by destruct (loads_inj e conf mesh conf' mesh' Hloads Hloads') as [-> ->].
Qed.

(** X13.  On a mesh whose face vector holds fewer than three indices the
    graph is built without a node and stays so, and of all labeling files
    only the empty one is accepted. *)
Theorem faceless_mesh_accepts_only_the_empty_labeling e conf mesh :
  loads e conf mesh → empty (labeling_file conf) = false →
  length (get_faces mesh) < 3 →
  num_nodes (built_graph mesh) = 0 ∧
  num_nodes (graph (run e).2) = 0 ∧
  ((run e).1 = Ret () ↔ env_labeling e = []).
Proof.
  intros Hloads Hfile Hfaces.
  assert (num_nodes (built_graph mesh) = 0) as Hnodes.
  { rewrite num_nodes_built_graph. unfold face_count. by apply Nat.div_small. }
  split; [done|].
  rewrite (run_labeling_file e conf mesh Hloads Hfile), Hnodes.
  case_bool_decide as Hcount.
  - split; [done|]. split; [done|]. intros Hnil. by rewrite Hnil in Hcount.
  - apply nil_length_inv in Hcount. rewrite Hcount; simpl. by split.
Qed.

End Properties.

(** * The zero adjustment at the program's type *)

Lemma same_value_refl x : same_value x x.
Proof. by left. Qed.

(** A finite weight times the zero of the adjustment is a zero. *)
Lemma fmul_finite_zero w :
  finite32 w = true → ∃ s, fmul w (f0 : float32) = S754_zero s.
Proof. destruct w; simpl; try done; by eexists. Qed.

Lemma fadd_zero_zero s1 s2 : ∃ s, fadd (S754_zero s1) (S754_zero s2) = S754_zero s.
Proof. destruct s1, s2; simpl; by eexists. Qed.

(** Adding a zero of either sign changes no float but, at most, the sign of
    a zero. *)
Lemma fadd_zero_same c s : same_value (fadd c (S754_zero s)) c.
Proof.
  destruct c as [sc|sc| |sc m ex]; simpl.
  - right. destruct sc, s; by do 2 eexists.
  - by left.
  - by left.
  - by left.
Qed.

Lemma default_zero_vector n i :
  default (Vec3_fill f0) (replicate n (Vec3_fill (f0 : float32)) !! i) = Vec3_fill f0.
Proof.
  destruct (replicate n _ !! i) as [v|] eqn:Hi; [|done].
  by apply lookup_replicate_1 in Hi as [-> _].
Qed.

(** The interpolation of zero vectors with finite weights is a vector of
    zeros. *)
Lemma interpolate_zero n k w0 w1 w2 :
  finite32 w0 = true → finite32 w1 = true → finite32 w2 = true →
  ∃ s0 s1 s2,
    interpolate (replicate n (Vec3_fill (f0 : float32))) k (w0, w1, w2) =
    (S754_zero s0, S754_zero s1, S754_zero s2).
Proof.
  intros H0 H1 H2. unfold interpolate. rewrite !default_zero_vector.
  destruct (fmul_finite_zero w0 H0) as [t0 E0], (fmul_finite_zero w1 H1) as [t1 E1],
    (fmul_finite_zero w2 H2) as [t2 E2].
  unfold Vec3_fill, Vec3_scale, Vec3_add. rewrite E0, E1, E2.
  destruct (fadd_zero_zero t0 t1) as [t01 E01]. rewrite E01.
  destruct (fadd_zero_zero t01 t2) as [t E]. rewrite E. by exists t, t, t.
Qed.

Lemma finite_weights_cover q i k w0 w1 w2 :
  finite_weights q = true → cover_at q i = Some (k, (w0, w1, w2)) →
  finite32 w0 = true ∧ finite32 w1 = true ∧ finite32 w2 = true.
Proof.
  unfold finite_weights, cover_at. intros Hall Hcover.
  destruct (tp_cover q !! i) as [cov|] eqn:Hi; [|done]. simpl in Hcover. subst cov.
  apply list_elem_of_lookup_2, list_elem_of_In in Hi.
  rewrite forallb_forall in Hall. apply Hall in Hi.
  by apply andb_true_iff in Hi as [[? ?]%andb_true_iff ?].
Qed.

(** The zero adjustment of a patch with finite weights changes no colour
    but, at most, the sign of a zero. *)
Lemma zero_adjust_same_colors (q : TexturePatch float32) :
  finite_weights q = true → Forall2 same_color (tp_image (zero_adjust q)) (tp_image q).
Proof.
  intros Hfinite. unfold zero_adjust, zero_adjust_values, adjust_colors; cbn [tp_image].
  apply Forall2_same_length_lookup. split; [apply length_imap|].
  intros i c' c Hc' Hc. rewrite list_lookup_imap, Hc in Hc'. injection Hc' as <-.
  destruct c as [[c0 c1] c2].
  destruct (cover_at q i) as [[k [[w0 w1] w2]]|] eqn:Hcover; cbn [adjust_pixel same_color].
  - destruct (finite_weights_cover q i k w0 w1 w2 Hfinite Hcover) as (H0 & H1 & H2).
    destruct (interpolate_zero (length (tp_faces q) * 3) k w0 w1 w2 H0 H1 H2)
      as (s0 & s1 & s2 & Hzeros).
    cbn [f0 float32_channel] in Hzeros. rewrite Hzeros.
    unfold Vec3_add. split_and!; apply fadd_zero_same.
  - split_and!; apply same_value_refl.
Qed.

(** The mask computed by an adjustment has one entry per pixel, valid
    exactly where a face of the patch covers the pixel. *)
Lemma adjust_colors_mask {F} `{Channel F} (v : list (Vec3 F)) (q : TexturePatch F) k :
  tp_validity_mask (adjust_colors v q) !! k = Some true ↔
  k < length (tp_image q) ∧ is_Some (cover_at q k).
Proof.
  unfold adjust_colors; simpl. rewrite list_lookup_imap. split.
  - destruct (tp_image q !! k) as [c|] eqn:Hk; simpl; [|done].
    intros [= Hvalid]. split; [by eapply lookup_lt_Some|].
    by apply bool_decide_eq_true in Hvalid.
  - intros [Hlt Hcover]. destruct (lookup_lt_is_Some_2 _ _ Hlt) as [c ->]; simpl.
    by rewrite bool_decide_eq_true_2.
Qed.

(** C5.  With global seam leveling disabled the global stage is the loop
    over the texture patches followed by its timer mark.  In whatever order
    the iterations of the parallel loop run, the stage returns after one
    adjustment per patch, each with three zero vectors per face of its patch,
    and every patch has been through that adjustment once.  The adjustment
    keeps the faces of a patch, computes its validity mask (one entry per
    pixel, valid where a face covers the pixel) and, the weights being
    finite, leaves every colour as it is but for the sign of a zero.  In a
    run that comes to this stage and returns, the global leveling is not
    called and every generated patch has had its zero adjustment. *)
Theorem zero_adjustment_when_global_leveling_disabled (e : Env (F:=float32)) conf :
  global_seam_leveling (settings conf) = false →
  (∀ p, global_stage e conf p =
        validity_masks_in (seq 0 (length (texture_patches p))) p) ∧
  (∀ (p : Proc (F:=float32)) (order : list nat),
     order ≡ₚ seq 0 (length (texture_patches p)) →
     (validity_masks_in order p).1 = Ret () ∧
     trace (validity_masks_in order p).2 =
       trace p ++
       omap (λ i, (λ q, AdjustColors i
                          (replicate (length (tp_faces q) * 3) (Vec3_fill f0)))
                  <$> texture_patches p !! i) order ++
       [TimerMeasure "Calculating texture patch validity masks"%string] ∧
     texture_patches (validity_masks_in order p).2 =
       (λ q, adjust_colors (replicate (length (tp_faces q) * 3) (Vec3_fill f0)) q)
         <$> texture_patches p) ∧
  (∀ q : TexturePatch float32,
     let q' := adjust_colors (replicate (length (tp_faces q) * 3) (Vec3_fill f0)) q in
     tp_faces q' = tp_faces q ∧
     length (tp_validity_mask q') = length (tp_image q) ∧
     (∀ k, tp_validity_mask q' !! k = Some true ↔
           k < length (tp_image q) ∧ is_Some (cover_at q k)) ∧
     (finite_weights q = true → Forall2 same_color (tp_image q') (tp_image q))) ∧
  (∀ mesh,
     loads e conf mesh → (run e).1 = Ret () →
     (GlobalSeamLeveling ∉ trace (run e).2) ∧
     ∀ i q, env_generate_texture_patches e (graph (run e).2) !! i = Some q →
       AdjustColors i (replicate (length (tp_faces q) * 3) (Vec3_fill f0))
         ∈ trace (run e).2).
Proof.
  intros Hglobal. split_and!.
  - intros p. by apply global_stage_disabled.
  - intros p order Hperm. by rewrite (validity_masks_in_run order p Hperm).
  - intros q. split_and!.
    + done.
    + unfold adjust_colors; simpl. apply length_imap.
    + intros k. apply adjust_colors_mask.
    + apply zero_adjust_same_colors.
  - intros mesh. by apply zero_adjustments_in_run.
Qed.

(** * The sample runs *)

Ltac in_list := repeat first [apply list_elem_of_here | apply list_elem_of_further].

Ltac not_in_list H :=
  vm_compute in H;
  repeat (apply elem_of_cons in H as [H|H]; [discriminate H|]);
  by apply elem_of_nil in H.

Lemma sample_loads conf num_views labeling load_data_costs :
  loads (sample_env conf num_views labeling load_data_costs) conf sample_mesh.
Proof. done. Qed.

(** C1, the claim as worded.  Whatever value marks an unlabelled face, a
    label equal to the number of views is accepted although it is not the
    index of a view: with the marker 2 the file [3; 0] passes for three
    views, with any other marker the file [2; 0] passes for two. *)
Lemma label_equal_to_num_views_is_accepted :
  ¬ ∃ invalid, rejects_inadmissible_labels (F:=Z) invalid.
Proof.
  intros [invalid Hclaim]. destruct (decide (invalid = 2%N)) as [->|Hne].
  - destruct (Hclaim (sample_env labeling_conf 3 [3; 0]%N None) labeling_conf sample_mesh)
      as [Hexit _].
    + apply sample_loads.
    + reflexivity.
    + exists 3%N. split; [apply list_elem_of_here|]. unfold admissible; simpl. lia.
    + vm_compute in Hexit. discriminate Hexit.
  - destruct (Hclaim (sample_env labeling_conf 2 [2; 0]%N None) labeling_conf sample_mesh)
      as [Hexit _].
    + apply sample_loads.
    + reflexivity.
    + exists 2%N. split; [apply list_elem_of_here|]. unfold admissible; simpl. lia.
    + vm_compute in Hexit. discriminate Hexit.
Qed.

Lemma labeling_file_validation_witness :
  let e := sample_env labeling_conf 2 [2; 0]%N None in
  (run e).1 = Ret () ∧ GenerateTexturePatches [2; 0]%N ∈ trace (run e).2.
Proof.
  apply (labeling_file_validation (sample_env labeling_conf 2 [2; 0]%N None)
           labeling_conf sample_mesh).
  - apply sample_loads.
  - reflexivity.
  - reflexivity.
  - repeat (apply List.Forall_cons; [by vm_compute|]). apply List.Forall_nil.
Defined.

Lemma labeling_count_mismatch_aborts_witness :
  aborts_with wrong_labeling (run (sample_env labeling_conf 2 [1]%N None)).
Proof.
  apply (labeling_count_mismatch_aborts (sample_env labeling_conf 2 [1]%N None)
           labeling_conf sample_mesh).
  - apply sample_loads.
  - reflexivity.
  - vm_compute. lia.
Defined.

Lemma label_above_num_views_aborts_witness :
  aborts_with wrong_labeling (run (sample_env labeling_conf 2 [1; 3]%N None)).
Proof.
  apply (label_above_num_views_aborts (sample_env labeling_conf 2 [1; 3]%N None)
           labeling_conf sample_mesh 3%N).
  - apply sample_loads.
  - reflexivity.
  - in_list.
  - by vm_compute.
Defined.

Lemma labeling_file_replaces_view_selection_witness :
  let e := sample_env labeling_conf 2 [2; 0]%N None in
  (CalculateDataCosts ∉ trace (run e).2) ∧
  (LoadDataCosts ∉ trace (run e).2) ∧
  (ViewSelection ∉ trace (run e).2) ∧
  (∀ labeling, GenerateTexturePatches labeling ∈ trace (run e).2 →
               labeling = [2; 0]%N) ∧
  ((run e).1 = Ret () → labels (graph (run e).2) = [2; 0]%N) ∧
  (∀ j, labels (graph (run e).2) !! j = [2; 0]%N !! j ∨
        labels (graph (run e).2) !! j = labels (built_graph sample_mesh) !! j).
Proof.
  apply (labeling_file_replaces_view_selection
           (sample_env labeling_conf 2 [2; 0]%N None) labeling_conf sample_mesh).
  - apply sample_loads.
  - reflexivity.
Defined.

Lemma label_transfer_not_atomic_witness :
  let e := sample_env labeling_conf 2 [1; 3]%N None in
  (run e).1 = Exited EXIT_FAILURE ∧
  labels (graph (run e).2) !! 0 = Some 1%N ∧
  labels (graph (run e).2) !! 1 = Some 0%N.
Proof.
  destruct (label_transfer_not_atomic
              (sample_env labeling_conf 2 [1; 3]%N None) labeling_conf sample_mesh)
    as [_ Hrange].
  - apply sample_loads.
  - reflexivity.
  - destruct (Hrange 1 3%N) as (Hexit & Hbefore & Hafter).
    + reflexivity.
    + reflexivity.
    + by vm_compute.
    + repeat (apply List.Forall_cons; [by vm_compute|]). apply List.Forall_nil.
    + split; [exact Hexit|]. split; [apply (Hbefore 0); lia|apply (Hafter 1); lia].
Defined.

Lemma graph_has_one_node_per_face_witness :
  let e := sample_env model_conf 2 [] None in
  num_nodes (built_graph sample_mesh) = 2 ∧
  length (adj_lists (built_graph sample_mesh)) = 2 ∧
  num_nodes (graph (run e).2) = 2.
Proof.
  apply (graph_has_one_node_per_face (sample_env model_conf 2 [] None)
           model_conf sample_mesh).
  apply sample_loads.
Defined.

Lemma data_cost_load_failure_is_fatal_witness :
  let e := sample_env data_cost_conf 2 [] (Some "cannot open file"%string) in
  (run e).1 = Exited EXIT_FAILURE ∧ EXIT_FAILURE ≠ 0%Z ∧
  trace (run e).2 =
    [TimerMeasure "Start"%string; PrepareMesh; GenerateTextureViews; WriteConf;
     TimerMeasure "Loading"%string; BuildAdjacencyGraph; LoadDataCosts;
     Cerr "cannot open file"%string] ∧
  texture_patches (run e).2 = [].
Proof.
  apply (data_cost_load_failure_is_fatal
           (sample_env data_cost_conf 2 [] (Some "cannot open file"%string))
           data_cost_conf sample_mesh).
  - apply sample_loads.
  - reflexivity.
  - reflexivity.
  - reflexivity.
Defined.

(** The two float patches, the second adjusted before the first. *)
Lemma zero_adjustment_when_global_leveling_disabled_witness :
  let p := {| graph := built_graph sample_mesh;
              texture_patches := [float_patch; float_patch'];
              trace := [] |} in
  ((validity_masks_in [1; 0] p).1 = Ret () ∧
   trace (validity_masks_in [1; 0] p).2 =
     [AdjustColors 1 (replicate 6 (Vec3_fill f0));
      AdjustColors 0 (replicate 3 (Vec3_fill f0));
      TimerMeasure "Calculating texture patch validity masks"%string] ∧
   texture_patches (validity_masks_in [1; 0] p).2 =
     [adjust_colors (replicate 3 (Vec3_fill f0)) float_patch;
      adjust_colors (replicate 6 (Vec3_fill f0)) float_patch']) ∧
  Forall2 same_color
    (tp_image (adjust_colors (replicate 3 (Vec3_fill f0)) float_patch))
    (tp_image float_patch).
Proof.
  destruct (zero_adjustment_when_global_leveling_disabled float_env labeling_conf)
    as (_ & Hloop & Hpatch & _).
  - reflexivity.
  - split.
    + apply (Hloop {| graph := built_graph sample_mesh;
                      texture_patches := [float_patch; float_patch'];
                      trace := [] |} [1; 0]).
      apply perm_swap.
    + destruct (Hpatch float_patch) as (_ & _ & _ & Hcolors). apply Hcolors. reflexivity.
Defined.

(** C6, the claim as worded.  With the global leveling disabled and the
    local one enabled, the local leveling runs and the global one does
    not. *)
Lemma local_leveling_runs_without_global :
  ¬ local_gated_on_global (sample_env labeling_conf 2 [2; 0]%N None).
Proof.
  intros [Hglobal _].
  assert (GlobalSeamLeveling
            ∈ trace (run (sample_env labeling_conf 2 [2; 0]%N None)).2) as Hin.
  { apply Hglobal. vm_compute. in_list. }
  not_in_list Hin.
Qed.

Lemma local_leveling_follows_its_own_flag_witness :
  LocalSeamLeveling ∈ trace (run (sample_env labeling_conf 2 [2; 0]%N None)).2.
Proof.
  destruct (local_leveling_follows_its_own_flag
              (sample_env labeling_conf 2 [2; 0]%N None) labeling_conf sample_mesh)
    as [[_ Hruns] _].
  - apply sample_loads.
  - reflexivity.
  - apply Hruns. reflexivity.
Defined.

(** C7, the claim as worded.  When the view-selection model is asked for,
    patches are generated once more after the model was built. *)
Lemma patch_generation_after_model_building :
  ¬ stages_in_sequence (trace (run (sample_env model_conf 2 [] None)).2).
Proof. unfold stages_in_sequence. by vm_compute. Qed.

(** ** More sample runs *)

Lemma failure_before_the_graph_witness :
  run meshless_env =
  (Exited EXIT_FAILURE,
   log initial [TimerMeasure "Start"%string;
                Cerr (tab ++ "Could not load mesh: " ++ "not a PLY file")%string]).
Proof.
  destruct (failure_before_the_graph meshless_env) as (_ & _ & Hmesh).
  apply (Hmesh labeling_conf); reflexivity.
Defined.

Lemma saved_labeling_is_the_one_used_witness :
  let e := sample_env saving_conf 2 [] None in
  (run e).1 = Ret () ∧ [1; 1]%N = labels (graph (run e).2) ∧
  GenerateTexturePatches [1; 1]%N ∈ trace (run e).2 ∧
  ∀ conf mesh, loads e conf mesh → length [1; 1]%N = length (get_faces mesh) `div` 3.
Proof.
  apply (saved_labeling_is_the_one_used (sample_env saving_conf 2 [] None) [1; 1]%N).
  vm_compute. in_list.
Defined.

Lemma patches_generated_from_final_labels_witness :
  let e := sample_env model_conf 2 [] None in
  patch_labelings (trace (run e).2) = [[1; 1]; [1; 1]]%N.
Proof.
  apply (patches_generated_from_final_labels (sample_env model_conf 2 [] None)
           model_conf sample_mesh).
  apply sample_loads.
Defined.

Lemma saved_labeling_reloads_witness :
  let e1 := sample_env saving_conf 2 [] None in
  let e2 := sample_env labeling_conf 2 [1; 1]%N None in
  (run e2).1 = Ret () ∧
  labels (graph (run e2).2) = labels (graph (run e1).2) ∧
  GenerateTexturePatches [1; 1]%N ∈ trace (run e2).2.
Proof.
  apply (saved_labeling_reloads (sample_env saving_conf 2 [] None) saving_conf
           (sample_env labeling_conf 2 [1; 1]%N None) labeling_conf sample_mesh).
  - apply sample_loads.
  - apply sample_loads.
  - vm_compute. in_list.
  - reflexivity.
  - reflexivity.
  - repeat (apply List.Forall_cons; [by vm_compute|]). apply List.Forall_nil.
Defined.

Lemma timer_marks_of_a_returning_run_witness :
  timer_marks (trace (run (sample_env labeling_conf 2 [2; 0]%N None)).2) =
  ["Start"; "Loading"; "Calculating texture patch validity masks";
   "Running local seam leveling"; "Building OBJ model"; "Saving"; "Total"]%string.
Proof.
  apply (timer_marks_of_a_returning_run (sample_env labeling_conf 2 [2; 0]%N None)
           labeling_conf sample_mesh).
  - apply sample_loads.
  - reflexivity.
Defined.

Lemma models_saved_witness :
  saved_models (trace (run (sample_env model_conf 2 [] None)).2) =
  [EmptyString; "_view_selection"%string].
Proof.
  apply (models_saved (sample_env model_conf 2 [] None) model_conf sample_mesh).
  apply sample_loads.
Defined.

Lemma global_leveling_replaces_zero_adjustment_witness :
  let e := sample_env model_conf 2 [] None in
  (∀ i v, AdjustColors i v ∉ trace (run e).2) ∧
  ((run e).1 = Ret () →
   GlobalSeamLeveling ∈ trace (run e).2 ∧ texture_patches (run e).2 = [sample_patch]).
Proof.
  apply (global_leveling_replaces_zero_adjustment (sample_env model_conf 2 [] None)
           model_conf sample_mesh).
  - apply sample_loads.
  - reflexivity.
Defined.

Lemma faceless_mesh_accepts_only_the_empty_labeling_witness :
  num_nodes (built_graph {| get_faces := [0; 1] |}) = 0 ∧
  num_nodes (graph (run faceless_env).2) = 0 ∧
  ((run faceless_env).1 = Ret () ↔ env_labeling faceless_env = []).
Proof.
  apply (faceless_mesh_accepts_only_the_empty_labeling faceless_env labeling_conf
           {| get_faces := [0; 1] |}).
  - done.
  - reflexivity.
  - simpl. lia.
Defined.
